(** * Any-code front end: session reconciliation, slash-command hooks, theme

    A shallow embedding of the event handler of [useSessionSync], of the
    keyboard handling of [useSlashCommandMenu], of [loadCommands] in
    [useCustomSlashCommands] and of [toggleTheme] in [ThemeContext],
    together with the properties the specification states about them.

    Conventions.
    - A JavaScript string is a [string]: a sequence of code units below 256
      (the Latin-1 range), on which [toLowerCase] acts unit by unit.
    - An optional field ([x?: T], [T | null]) is an [option].
    - Calls into collaborators that are not part of these files (the tab
      registry, the console, the backend) are recorded, in order, in a log
      carried by a state monad. *)

From Stdlib Require Import String Ascii List Bool ZArith NArith Lia.
From ExtLib Require Import Structures.Monad Structures.MonadState.
From ExtLib Require Import Data.Monads.StateMonad.
Import ListNotations.
Import MonadNotation.
Local Open Scope monad_scope.
Local Open Scope string_scope.
Local Open Scope bool_scope.

(** ** JavaScript string primitives used by the hooks *)

Module JsString.

(** Truthiness of a string: every string but the empty one. *)
Definition truthy (s : string) : bool :=
  match s with
  | EmptyString => false
  | String _ _ => true
  end.

(** Truthiness of an optional string: [undefined], [null] and the empty
    string are falsy. *)
Definition truthyOpt (o : option string) : bool :=
  match o with
  | Some s => truthy s
  | None => false
  end.

(** [a || b] on optional strings. *)
Definition orElse (a b : option string) : option string :=
  if truthyOpt a then a else b.

Fixpoint mapUnits (f : ascii -> ascii) (s : string) : string :=
  match s with
  | EmptyString => EmptyString
  | String c rest => String (f c) (mapUnits f rest)
  end.

Definition backslash : ascii := ascii_of_nat 92.
Definition slash : ascii := ascii_of_nat 47.

Definition isSlash (c : ascii) : bool := Ascii.eqb c slash.
Definition isBackslash (c : ascii) : bool := Ascii.eqb c backslash.

(** [s.replace(/\\/g, '/')]: every backslash becomes a forward slash. *)
Definition replaceBackslashes (s : string) : string :=
  mapUnits (fun c => if isBackslash c then slash else c) s.

(** Upper-case units of the Latin-1 range: A-Z, and U+00C0-U+00DE
    without the multiplication sign U+00D7. *)
Definition isUpperUnit (c : ascii) : bool :=
  let n := N_of_ascii c in
  ((65 <=? n) && (n <=? 90) ||
   (192 <=? n) && (n <=? 222) && negb (n =? 215))%N.

Definition lowerUnit (c : ascii) : ascii :=
  if isUpperUnit c then ascii_of_N (N_of_ascii c + 32) else c.

(** [s.toLowerCase()]. *)
Definition toLowerCase (s : string) : string := mapUnits lowerUnit s.

(** [s] is one or more slashes: what [/\/+$/] matches when it is tried at
    the first unit of [s]. *)
Fixpoint slashesToEnd (s : string) : bool :=
  match s with
  | EmptyString => false
  | String c rest =>
      isSlash c && match rest with
                   | EmptyString => true
                   | String _ _ => slashesToEnd rest
                   end
  end.

(** [s.replace(/\/+$/, '')]: the pattern is tried at every position from
    the left; the first position where it matches starts the run of
    slashes that reaches the end of the string, and that run is removed. *)
Fixpoint stripTrailingSlashes (s : string) : string :=
  match s with
  | EmptyString => EmptyString
  | String c rest =>
      if slashesToEnd s then EmptyString
      else String c (stripTrailingSlashes rest)
  end.

(** [s.includes(pat)]. *)
Fixpoint includes (s pat : string) : bool :=
  String.prefix pat s ||
  match s with
  | EmptyString => false
  | String _ rest => includes rest pat
  end.

(** The last unit of a string, if any. *)
Fixpoint lastUnit (s : string) : option ascii :=
  match s with
  | EmptyString => None
  | String c EmptyString => Some c
  | String _ rest => lastUnit rest
  end.

(** [c] occurs in [s]. *)
Fixpoint occurs (c : ascii) (s : string) : bool :=
  match s with
  | EmptyString => false
  | String d rest => Ascii.eqb c d || occurs c rest
  end.

Fixpoint allUnits (p : ascii -> bool) (s : string) : bool :=
  match s with
  | EmptyString => true
  | String c rest => p c && allUnits p rest
  end.

(** A run of [n] slashes. *)
Fixpoint slashes (n : nat) : string :=
  match n with
  | O => EmptyString
  | S k => String slash (slashes k)
  end.

End JsString.

(** ** useSessionSync: the [claude-session-state] listener *)

Module Session.
Record t : Type := { id : string; project_path : string }.
End Session.

Module Tab.
(** What the listener reads of a tab: its identifier, its execution state
    (a string; ["streaming"] is the only value it compares with), its
    optional session and its optional own project path. *)
Record t : Type := {
  id : string;
  state : string;
  session : option Session.t;
  projectPath : option string
}.
End Tab.

Module Payload.
Inductive Status : Type := started | stopped.

Record t : Type := {
  session_id : string;
  status : Status;
  success : option bool;
  error : option string;
  project_path : option string;
  model : option string;
  pid : option Z;
  run_id : option Z
}.
End Payload.

Module SessionSync.
Import JsString.

(** The calls the listener makes into its collaborators. *)
Inductive Call : Type :=
| updateTabStreamingStatus (tabId : string) (isStreaming : bool)
                           (sessionId : option string)
| console_warn (message : string)
| console_error (message : string) (detail : string).

Definition Listener : Type -> Type := state (list Call).

Definition call (c : Call) : Listener unit :=
  log <- get ;; put (log ++ [c])%list.

Definition normalizePath (p : string) : string :=
  stripTrailingSlashes (toLowerCase (replaceBackslashes p)).

(** [t.session?.id === session_id] *)
Definition hasSessionId (session_id : string) (t : Tab.t) : bool :=
  match Tab.session t with
  | Some s => String.eqb (Session.id s) session_id
  | None => false
  end.

(** [t.projectPath || t.session?.project_path] *)
Definition tabProjectPath (t : Tab.t) : option string :=
  orElse (Tab.projectPath t) (option_map Session.project_path (Tab.session t)).

(** [tabProjectPath && normalizePath(tabProjectPath) === normalizedEventPath] *)
Definition hasProjectPath (normalizedEventPath : string) (t : Tab.t) : bool :=
  match tabProjectPath t with
  | Some p => truthy p && String.eqb (normalizePath p) normalizedEventPath
  | None => false
  end.

(** The tab an event is matched to: lines 54-63 of the listener. *)
Definition matchTab (tabs : list Tab.t) (payload : Payload.t) : option Tab.t :=
  let tab := find (hasSessionId (Payload.session_id payload)) tabs in
  match tab, Payload.project_path payload with
  | None, Some project_path =>
      if truthy project_path then
        let normalizedEventPath := normalizePath project_path in
        find (hasProjectPath normalizedEventPath) tabs
      else tab
  | _, _ => tab
  end.

Definition isStreaming (t : Tab.t) : bool :=
  String.eqb (Tab.state t) "streaming".

Definition noTabMessage (session_id : string) : string :=
  "[SessionSync] No tab found for session " ++ session_id.

Definition stoppedWithErrorMessage (session_id : string) : string :=
  "[SessionSync] Session " ++ session_id ++ " stopped with error:".

(** The callback registered on [claude-session-state], run on the tabs
    that [tabsRef.current] holds when the event is delivered. *)
Definition onSessionState (tabs : list Tab.t) (payload : Payload.t)
  : Listener unit :=
  let session_id := Payload.session_id payload in
  match matchTab tabs payload with
  | Some tab =>
      match Payload.status payload with
      | Payload.started =>
          if negb (isStreaming tab) then
            call (updateTabStreamingStatus (Tab.id tab) true (Some session_id))
          else ret tt
      | Payload.stopped =>
          if isStreaming tab then
            call (updateTabStreamingStatus (Tab.id tab) false None) ;;
            match Payload.error payload with
            | Some err =>
                if truthy err then
                  call (console_error (stoppedWithErrorMessage session_id) err)
                else ret tt
            | None => ret tt
            end
          else ret tt
      end
  | None => call (console_warn (noTabMessage session_id))
  end.

(** The calls one delivery makes, in order. *)
Definition deliver (tabs : list Tab.t) (payload : Payload.t) : list Call :=
  execState (onSessionState tabs payload) [].

Definition isMutation (c : Call) : bool :=
  match c with
  | updateTabStreamingStatus _ _ _ => true
  | _ => false
  end.

Definition isWarning (c : Call) : bool :=
  match c with
  | console_warn _ => true
  | _ => false
  end.

Definition mutations (log : list Call) : list Call := filter isMutation log.
Definition warnings (log : list Call) : list Call := filter isWarning log.

(** [tab] is the first element of [tabs] on which [f] holds: what
    [tabs.find(f)] returns. *)
Definition firstWith (f : Tab.t -> bool) (tabs : list Tab.t) (tab : Tab.t)
  : Prop :=
  exists before after,
    tabs = (before ++ tab :: after)%list /\
    f tab = true /\
    forall t, In t before -> f t = false.

(** No element of [tabs] satisfies [f]: [tabs.find(f)] is [undefined]. *)
Definition noneWith (f : Tab.t -> bool) (tabs : list Tab.t) : Prop :=
  forall t, In t tabs -> f t = false.

(** The same payload with another [error] field. *)
Definition withError (payload : Payload.t) (err : option string) : Payload.t :=
  {| Payload.session_id := Payload.session_id payload;
     Payload.status := Payload.status payload;
     Payload.success := Payload.success payload;
     Payload.error := err;
     Payload.project_path := Payload.project_path payload;
     Payload.model := Payload.model payload;
     Payload.pid := Payload.pid payload;
     Payload.run_id := Payload.run_id payload |}.

End SessionSync.

(** Concrete tabs and events: the scenario of the specification and the
    Windows paths of its normalization example. *)
Module Scenario.

Definition event (session_id : string) (status : Payload.Status)
  (err project_path : option string) : Payload.t :=
  {| Payload.session_id := session_id;
     Payload.status := status;
     Payload.success := None;
     Payload.error := err;
     Payload.project_path := project_path;
     Payload.model := None;
     Payload.pid := None;
     Payload.run_id := None |}.

Definition tabA (state : string) (session : option Session.t) : Tab.t :=
  {| Tab.id := "A"; Tab.state := state; Tab.session := session;
     Tab.projectPath := Some "/repo/app" |}.

Definition tabB (state : string) (session : option Session.t) : Tab.t :=
  {| Tab.id := "B"; Tab.state := state; Tab.session := session;
     Tab.projectPath := Some "/repo/lib" |}.

Definition s1 : Session.t :=
  {| Session.id := "s1"; Session.project_path := "/repo/app" |}.

Definition startedS1 : Payload.t :=
  event "s1" Payload.started None (Some "/repo/app").

Definition stoppedS1Oom : Payload.t :=
  event "s1" Payload.stopped (Some "oom") None.


Definition windowsPaths : list string :=
  [ "C:\Users\X\Proj"; "c:/Users/x/proj/"; "C:/USERS/X/PROJ" ].

Definition tabAt (id state : string) (session : option Session.t)
  (projectPath : string) : Tab.t :=
  {| Tab.id := id; Tab.state := state; Tab.session := session;
     Tab.projectPath := Some projectPath |}.

End Scenario.

(** ** useSlashCommandMenu: keyboard handling of the menu *)

Module SlashCommand.
Record t : Type := {
  name : string;
  description : string;
  source : string;
  category : string;
  supportsNonInteractive : bool;
  argHint : option string
}.
End SlashCommand.

Module SlashCommandMenu.

(** What a key press can do outside the hook's own state. *)
Inductive Call : Type :=
| preventDefault
| onCommandSelect (command : string).

(** The two [useState] cells of the hook, and the calls made so far. *)
Record HookState : Type := {
  selectedIndex : Z;
  isManuallyClose : bool;
  calls : list Call
}.

(** What the render that created [handleKeyDown] computed from the props:
    [isSlashCommand] comes from [detectSlashCommand] and [disabled],
    [filteredCommands] from [filterSlashCommands] (module [slashCommands],
    not part of these files); [hasOnCommandSelect] tells whether the
    optional callback was passed. *)
Record Render : Type := {
  isSlashCommand : bool;
  filteredCommands : list SlashCommand.t;
  hasOnCommandSelect : bool
}.

Definition Menu : Type -> Type := state HookState.

Definition call (c : Call) : Menu unit :=
  st <- get ;;
  put {| selectedIndex := selectedIndex st;
         isManuallyClose := isManuallyClose st;
         calls := (calls st ++ [c])%list |}.

(** [setSelectedIndex(prev => f prev)] *)
Definition setSelectedIndex (f : Z -> Z) : Menu unit :=
  st <- get ;;
  put {| selectedIndex := f (selectedIndex st);
         isManuallyClose := isManuallyClose st;
         calls := calls st |}.

Definition setIsManuallyClose (b : bool) : Menu unit :=
  st <- get ;;
  put {| selectedIndex := selectedIndex st;
         isManuallyClose := b;
         calls := calls st |}.

(** [filteredCommands.length] as a number. *)
Definition lengthOf (r : Render) : Z := Z.of_nat (length (filteredCommands r)).

(** [filteredCommands[i]]: [undefined] outside the array. *)
Definition commandAt (r : Render) (i : Z) : option SlashCommand.t :=
  if (i <? 0)%Z then None else nth_error (filteredCommands r) (Z.to_nat i).

Definition isOpen (r : Render) (st : HookState) : bool :=
  isSlashCommand r && negb (isManuallyClose st) && (0 <? lengthOf r)%Z.

Definition selectCommand (r : Render) (command : SlashCommand.t) : Menu unit :=
  let fullCommand := "/" ++ SlashCommand.name command in
  (if hasOnCommandSelect r then call (onCommandSelect fullCommand) else ret tt) ;;
  setIsManuallyClose true.

Definition closeMenu : Menu unit := setIsManuallyClose true.

Definition arrowUp (r : Render) (prev : Z) : Z :=
  if (0 <? prev)%Z then (prev - 1)%Z else (lengthOf r - 1)%Z.

Definition arrowDown (r : Render) (prev : Z) : Z :=
  if (prev <? lengthOf r - 1)%Z then (prev + 1)%Z else 0%Z.

(** [handleKeyDown(e)], on the key name [e.key]; the result tells whether
    the menu consumed the key. *)
Definition handleKeyDown (r : Render) (key : string) : Menu bool :=
  st <- get ;;
  if negb (isOpen r st) then ret false
  else if String.eqb key "ArrowUp" then
    call preventDefault ;;
    setSelectedIndex (arrowUp r) ;;
    ret true
  else if String.eqb key "ArrowDown" then
    call preventDefault ;;
    setSelectedIndex (arrowDown r) ;;
    ret true
  else if String.eqb key "Enter" then
    match commandAt r (selectedIndex st) with
    | Some command =>
        call preventDefault ;;
        selectCommand r command ;;
        ret true
    | None => ret false
    end
  else if String.eqb key "Tab" then
    match commandAt r (selectedIndex st) with
    | Some command =>
        call preventDefault ;;
        selectCommand r command ;;
        ret true
    | None => ret false
    end
  else if String.eqb key "Escape" then
    call preventDefault ;;
    closeMenu ;;
    ret true
  else ret false.

End SlashCommandMenu.

(** ** useCustomSlashCommands: loading the custom commands *)

Module CustomSlashCommands.
Import JsString.

Inductive ExecutionEngine : Type := claude | gemini | codex.

Definition engineName (engine : ExecutionEngine) : string :=
  match engine with
  | claude => "claude"
  | gemini => "gemini"
  | codex => "codex"
  end.

Record CustomSlashCommandResponse : Type := {
  name : string;
  path : string;
  scope : string;
  description : option string;
  argHint : option string;
  content : string
}.

(** What a rejected [invoke] throws: an [Error] carrying a message, or any
    other value, given by its [String(err)]. *)
Inductive Thrown : Type :=
| anError (message : string)
| aValue (asString : string).

Inductive InvokeResult : Type :=
| resolves (commands : list CustomSlashCommandResponse)
| rejects (err : Thrown).

(** The backend: the outcome of [invoke(command, { projectPath })]. *)
Definition Backend : Type := string -> option string -> InvokeResult.

Inductive ConsoleCall : Type :=
| console_debug (message : string)
| console_error (message : string) (detail : string).

(** The three [useState] cells of the hook, and the console. *)
Record HookState : Type := {
  rawCommands : list CustomSlashCommandResponse;
  isLoading : bool;
  error : option string;
  console : list ConsoleCall
}.

Definition Hook : Type -> Type := state HookState.

Definition setRawCommands (v : list CustomSlashCommandResponse) : Hook unit :=
  st <- get ;;
  put {| rawCommands := v; isLoading := isLoading st;
         error := error st; console := console st |}.

Definition setIsLoading (v : bool) : Hook unit :=
  st <- get ;;
  put {| rawCommands := rawCommands st; isLoading := v;
         error := error st; console := console st |}.

Definition setError (v : option string) : Hook unit :=
  st <- get ;;
  put {| rawCommands := rawCommands st; isLoading := isLoading st;
         error := v; console := console st |}.

Definition log (c : ConsoleCall) : Hook unit :=
  st <- get ;;
  put {| rawCommands := rawCommands st; isLoading := isLoading st;
         error := error st; console := (console st ++ [c])%list |}.

Definition getBackendCommand (eng : ExecutionEngine) : string :=
  match eng with
  | gemini => "list_gemini_custom_slash_commands"
  | _ => "list_custom_slash_commands"
  end.

(** [err instanceof Error ? err.message : String(err)] *)
Definition errorMessageOf (err : Thrown) : string :=
  match err with
  | anError message => message
  | aValue asString => asString
  end.

(** The message test of the [catch] block. *)
Definition isUnavailable (errorMessage : string) : bool :=
  includes errorMessage "not found" || includes errorMessage "Unknown command".

Definition loadCommands (invoke : Backend) (projectPath : option string)
  (enabled : bool) (engine : ExecutionEngine) : Hook unit :=
  if negb enabled then setRawCommands []
  else
    match engine with
    | codex => setRawCommands []
    | _ =>
        setIsLoading true ;;
        setError None ;;
        (let backendCommand := getBackendCommand engine in
         match invoke backendCommand (orElse projectPath None) with
         | resolves commands => setRawCommands commands
         | rejects err =>
             let errorMessage := errorMessageOf err in
             if isUnavailable errorMessage then
               log (console_debug
                      ("Custom slash commands not available for engine: "
                         ++ engineName engine)) ;;
               setRawCommands []
             else
               log (console_error "Failed to load custom slash commands:"
                                  errorMessage) ;;
               setError (Some errorMessage) ;;
               setRawCommands []
         end) ;;
        setIsLoading false
    end.

(** One entry of the [customCommands] memo. *)
Definition toSlashCommand (cmd : CustomSlashCommandResponse) : SlashCommand.t :=
  {| SlashCommand.name := name cmd;
     SlashCommand.description :=
       match description cmd with
       | Some d => if truthy d then d else "Custom command: " ++ name cmd
       | None => "Custom command: " ++ name cmd
       end;
     SlashCommand.source :=
       if String.eqb (scope cmd) "project" then "project" else "user";
     SlashCommand.category := "custom";
     SlashCommand.supportsNonInteractive := true;
     SlashCommand.argHint := orElse (argHint cmd) None |}.

Definition customCommands (st : HookState) : list SlashCommand.t :=
  map toSlashCommand (rawCommands st).

End CustomSlashCommands.

(** ** ThemeContext *)

Module ThemeContext.

Inductive Theme : Type := light | dark.

(** The updater passed to [setTheme] by [toggleTheme]. *)
Definition toggle (prev : Theme) : Theme :=
  match prev with
  | light => dark
  | _ => light
  end.

(** [toggleTheme()], on the [theme] state cell. *)
Definition toggleTheme : state Theme unit :=
  prev <- get ;; put (toggle prev).

End ThemeContext.

(** A menu of three commands of the Gemini catalog, open on its first
    entry. *)
Module MenuScenario.

Definition builtIn (name description category : string)
  (supportsNonInteractive : bool) : SlashCommand.t :=
  {| SlashCommand.name := name;
     SlashCommand.description := description;
     SlashCommand.source := "built-in";
     SlashCommand.category := category;
     SlashCommand.supportsNonInteractive := supportsNonInteractive;
     SlashCommand.argHint := None |}.

Definition threeCommands : SlashCommandMenu.Render :=
  {| SlashCommandMenu.isSlashCommand := true;
     SlashCommandMenu.filteredCommands :=
       [ builtIn "compact" "compact the context" "session" true;
         builtIn "stats" "token statistics" "context" true;
         builtIn "context" "context usage" "context" true ];
     SlashCommandMenu.hasOnCommandSelect := true |}.

Definition selecting (index : Z) : SlashCommandMenu.HookState :=
  {| SlashCommandMenu.selectedIndex := index;
     SlashCommandMenu.isManuallyClose := false;
     SlashCommandMenu.calls := [] |}.

End MenuScenario.

(** ** More string primitives: [trim], [indexOf], [slice] *)

Module JsStringExtra.
Import JsString.

(** White space and line terminators of the Latin-1 range: TAB, LF, VT,
    FF, CR, SP and NBSP. *)
Definition isWhiteSpace (c : ascii) : bool :=
  let n := N_of_ascii c in
  ((9 <=? n) && (n <=? 13) || (n =? 32) || (n =? 160))%N.

Fixpoint trimStart (s : string) : string :=
  match s with
  | EmptyString => EmptyString
  | String c rest => if isWhiteSpace c then trimStart rest else s
  end.

Fixpoint trimEnd (s : string) : string :=
  match s with
  | EmptyString => EmptyString
  | String c rest =>
      match trimEnd rest with
      | EmptyString => if isWhiteSpace c then EmptyString
                       else String c EmptyString
      | kept => String c kept
      end
  end.

(** [s.trim()] *)
Definition trim (s : string) : string := trimEnd (trimStart s).

Definition space : ascii := ascii_of_nat 32.

(** [s.indexOf(c)] for a one-unit pattern: the position of the first
    occurrence, or -1. *)
Fixpoint indexOfUnit (c : ascii) (s : string) : Z :=
  match s with
  | EmptyString => (-1)%Z
  | String d rest =>
      if Ascii.eqb d c then 0%Z
      else let i := indexOfUnit c rest in
           if (i <? 0)%Z then (-1)%Z else (i + 1)%Z
  end.

(** [s.slice(1)] *)
Definition sliceFrom1 (s : string) : string :=
  match s with
  | EmptyString => EmptyString
  | String _ rest => rest
  end.

(** A path separator, of either style. *)
Definition isSeparator (c : ascii) : bool := isSlash c || isBackslash c.

(** What [replace(/\\/g, '/')] followed by [toLowerCase()] does to one
    unit. *)
Definition canonicalUnit (c : ascii) : ascii :=
  lowerUnit (if isBackslash c then slash else c).

End JsStringExtra.

(** ** geminiSlashCommands: the built-in catalog

    Descriptions are display text, kept as the bytes of the source file;
    nothing below inspects them. *)

Module GeminiSlashCommands.

Definition builtIn (name description category : string)
  (supportsNonInteractive : bool) (argHint : option string) : SlashCommand.t :=
  {| SlashCommand.name := name;
     SlashCommand.description := description;
     SlashCommand.source := "built-in";
     SlashCommand.category := category;
     SlashCommand.supportsNonInteractive := supportsNonInteractive;
     SlashCommand.argHint := argHint |}.

Definition GEMINI_BUILT_IN_SLASH_COMMANDS : list SlashCommand.t :=
  [ builtIn "clear" "清除当前会话历史" "session" false None;
    builtIn "compact" "压缩会话上下文以释放 token" "session" true None;
    builtIn "save" "保存当前会话到文件" "session" false (Some "[filename]");
    builtIn "load" "加载已保存的会话" "session" false (Some "<filename>");
    builtIn "stats" "显示 Token 使用统计和配额信息" "context" true None;
    builtIn "context" "查看当前上下文使用情况" "context" true None;
    builtIn "help" "显示帮助信息" "system" false None;
    builtIn "settings" "打开设置界面" "config" false None;
    builtIn "model" "选择或更换 AI 模型" "config" false None;
    builtIn "tools" "管理可用工具列表" "config" false None;
    builtIn "extensions" "管理 Gemini CLI 扩展" "system" false None;
    builtIn "mcp" "管理 MCP 服务器连接" "system" false None;
    builtIn "init" "初始化项目 GEMINI.md 配置" "system" true None;
    builtIn "memory" "编辑 GEMINI.md 记忆文件" "system" false None;
    builtIn "quit" "退出 Gemini CLI" "session" false None;
    builtIn "version" "显示版本信息" "system" true None ].

Definition getGeminiNonInteractiveCommands : list SlashCommand.t :=
  filter SlashCommand.supportsNonInteractive GEMINI_BUILT_IN_SLASH_COMMANDS.

End GeminiSlashCommands.

(** ** useSlashCommandMenu: what a render computes, and its effects *)

Module SlashCommandMenuHook.
Import JsString JsStringExtra.

Record Detection : Type := { isSlashCommand : bool; query : string }.

Definition notACommand : Detection :=
  {| isSlashCommand := false; query := EmptyString |}.

Definition detectSlashCommand (text : string) : Detection :=
  let trimmed := trim text in
  if negb (String.prefix "/" trimmed) then notACommand
  else
    let firstSpaceIndex := indexOfUnit space trimmed in
    if (0 <? firstSpaceIndex)%Z then notACommand
    else {| isSlashCommand := true; query := sliceFrom1 trimmed |}.

(** The options of the hook; [hasOnCommandSelect] tells whether the
    optional callback is passed. *)
Record Options : Type := {
  prompt : string;
  hasOnCommandSelect : bool;
  customCommands : list SlashCommand.t;
  disabled : bool;
  engine : CustomSlashCommands.ExecutionEngine
}.

Section Catalog.

(** The Claude catalog and the filter are exported by module
    [slashCommands], which is not part of these files. *)
Variable BUILT_IN_SLASH_COMMANDS : list SlashCommand.t.
Variable filterSlashCommands :
  list SlashCommand.t -> string -> bool -> list SlashCommand.t.

Definition detection (o : Options) : Detection :=
  if disabled o then notACommand else detectSlashCommand (prompt o).

Definition builtInCommands (eng : CustomSlashCommands.ExecutionEngine)
  : list SlashCommand.t :=
  match eng with
  | CustomSlashCommands.gemini =>
      GeminiSlashCommands.GEMINI_BUILT_IN_SLASH_COMMANDS
  | CustomSlashCommands.claude => BUILT_IN_SLASH_COMMANDS
  | CustomSlashCommands.codex => []
  end.

Definition allCommands (o : Options) : list SlashCommand.t :=
  (builtInCommands (engine o) ++ customCommands o)%list.

Definition filteredCommands (o : Options) : list SlashCommand.t :=
  filterSlashCommands (allCommands o) (query (detection o)) true.

(** What [handleKeyDown] closes over. *)
Definition render (o : Options) : SlashCommandMenu.Render :=
  {| SlashCommandMenu.isSlashCommand := isSlashCommand (detection o);
     SlashCommandMenu.filteredCommands := filteredCommands o;
     SlashCommandMenu.hasOnCommandSelect := hasOnCommandSelect o |}.

End Catalog.

(** The effect that runs when [query] changes. *)
Definition onQueryChange : SlashCommandMenu.Menu unit :=
  SlashCommandMenu.setSelectedIndex (fun _ => 0%Z) ;;
  SlashCommandMenu.setIsManuallyClose false.

(** The effect that runs when [prompt] changes. *)
Definition onPromptChange (prompt : string) : SlashCommandMenu.Menu unit :=
  if negb (truthy (trim prompt)) then SlashCommandMenu.setIsManuallyClose false
  else ret tt.

(** [n] presses of the same key, each handled by the render [r]. *)
Fixpoint press (r : SlashCommandMenu.Render) (key : string) (n : nat)
  : SlashCommandMenu.Menu unit :=
  match n with
  | O => ret tt
  | S k => SlashCommandMenu.handleKeyDown r key ;; press r key k
  end.

End SlashCommandMenuHook.

(** ** useSessionSync: setting the listener up and releasing it *)

Module SessionSyncLifecycle.

(** What the mount effect and its cleanup call besides the listener. *)
Inductive Call : Type :=
| unlistenCalled
| console_error (message : string) (detail : string).

(** The local variable [unlisten] (assigned or not) and the calls made. *)
Record Effect : Type := { unlisten : bool; log : list Call }.

Definition mounted : Effect := {| unlisten := false; log := [] |}.

(** What can happen once the effect has run [setupListener()]: the
    promise of [listen] resolves or rejects, or the cleanup runs. *)
Inductive Step : Type :=
| listenResolves
| listenRejects (error : string)
| cleanup.

Definition step (s : Step) (e : Effect) : Effect :=
  match s with
  | listenResolves => {| unlisten := true; log := log e |}
  | listenRejects error =>
      {| unlisten := unlisten e;
         log := (log e ++
                 [console_error "[SessionSync] Failed to setup event listener:"
                                error])%list |}
  | cleanup =>
      if unlisten e then
        {| unlisten := unlisten e; log := (log e ++ [unlistenCalled])%list |}
      else e
  end.

Fixpoint run (steps : list Step) (e : Effect) : Effect :=
  match steps with
  | [] => e
  | s :: rest => run rest (step s e)
  end.

Definition isUnlisten (c : Call) : bool :=
  match c with
  | unlistenCalled => true
  | _ => false
  end.

Definition isResolve (s : Step) : bool :=
  match s with
  | listenResolves => true
  | _ => false
  end.

Definition isCleanup (s : Step) : bool :=
  match s with
  | cleanup => true
  | _ => false
  end.

(** How many times the subscription was released. *)
Definition releases (e : Effect) : nat := length (filter isUnlisten (log e)).

End SessionSyncLifecycle.

(** ** ThemeProvider: the theme at run time

    [localStorage] may hold any string, and the mount effect stores what it
    finds in the [theme] cell unchecked; the cell is a string here, and
    [themeName] embeds the two values of the type. *)

Module ThemeProvider.
Import JsString.

Definition themeName (t : ThemeContext.Theme) : string :=
  match t with
  | ThemeContext.light => "light"
  | ThemeContext.dark => "dark"
  end.

(** [invoke('set_titlebar_theme', { isDark })] *)
Inductive Call : Type :=
| set_titlebar_theme (isDark : bool).

(** [console.warn(message, detail)] *)
Inductive Warning : Type :=
| console_warn (message : string) (detail : string).

(** The [theme] cell, the storage, the class list and the
    [data-color-mode] attribute of the document element, the backend calls
    made and the warnings logged. A warning comes when the promise of a
    call rejects, which is later than the call; the two are kept apart, and
    their order relative to each other is not recorded. *)
Record World : Type := {
  theme : string;
  localStorage : list (string * string);
  classList : list string;
  dataColorMode : option string;
  calls : list Call;
  warnings : list Warning
}.

(** [localStorage.getItem(key)] *)
Fixpoint getItem (key : string) (store : list (string * string)) : option string :=
  match store with
  | [] => None
  | (k, v) :: rest => if String.eqb k key then Some v else getItem key rest
  end.

(** [localStorage.setItem(key, value)] *)
Fixpoint setItem (key value : string) (store : list (string * string))
  : list (string * string) :=
  match store with
  | [] => [(key, value)]
  | (k, v) :: rest =>
      if String.eqb k key then (k, value) :: rest
      else (k, v) :: setItem key value rest
  end.

Definition hasToken (token : string) (tokens : list string) : bool :=
  existsb (String.eqb token) tokens.

(** [classList.remove(...tokens)] *)
Definition classListRemove (tokens classes : list string) : list string :=
  filter (fun c => negb (hasToken c tokens)) classes.

(** ASCII white space, which a class token may not hold: TAB, LF, FF, CR
    and SP. *)
Definition isAsciiWhitespace (c : ascii) : bool :=
  let n := N_of_ascii c in
  ((n =? 9) || (n =? 10) || (n =? 12) || (n =? 13) || (n =? 32))%N.

Fixpoint someUnit (p : ascii -> bool) (s : string) : bool :=
  match s with
  | EmptyString => false
  | String c rest => p c || someUnit p rest
  end.

(** A token [classList.add] accepts: not empty, without white space. *)
Definition validToken (token : string) : bool :=
  truthy token && negb (someUnit isAsciiWhitespace token).

(** [classList.add(token)] on a valid token. *)
Definition classListAdd (token : string) (classes : list string) : list string :=
  if hasToken token classes then classes else (classes ++ [token])%list.

(** The mount effect: take the saved theme, if there is one. *)
Definition loadSavedTheme (w : World) : World :=
  match getItem "theme" (localStorage w) with
  | Some savedTheme =>
      if truthy savedTheme then
        {| theme := savedTheme; localStorage := localStorage w;
           classList := classList w; dataColorMode := dataColorMode w;
           calls := calls w; warnings := warnings w |}
      else w
  | None => w
  end.

(** The effect on [theme]: classes, attribute, storage, title bar.
    [titlebar] is the outcome of the [set_titlebar_theme] call: [None]
    when it resolves, the error when it rejects. The result is [None] when
    [classList.add] throws, which ends the effect before anything is
    stored. *)
Definition applyTheme (titlebar : option string) (w : World) : option World :=
  let removed := classListRemove ["light"; "dark"] (classList w) in
  if validToken (theme w) then
    Some {| theme := theme w;
            localStorage := setItem "theme" (theme w) (localStorage w);
            classList := classListAdd (theme w) removed;
            dataColorMode := Some (theme w);
            calls :=
              (calls w ++
               [set_titlebar_theme (String.eqb (theme w) "dark")])%list;
            warnings :=
              (warnings w ++
               match titlebar with
               | Some err =>
                   [console_warn "Failed to update titlebar theme:" err]
               | None => []
               end)%list |}
  else None.

(** [setTheme(t)] *)
Definition setTheme (t : string) (w : World) : World :=
  {| theme := t; localStorage := localStorage w;
     classList := classList w; dataColorMode := dataColorMode w;
     calls := calls w; warnings := warnings w |}.

(** The updater of [toggleTheme], on the cell as it is at run time. *)
Definition toggle (prev : string) : string :=
  if String.eqb prev "light" then "dark" else "light".

Definition toggleTheme (w : World) : World := setTheme (toggle (theme w)) w.

(** Mounting the provider on a page: the cell starts at ['light']; the
    mount effect reads the saved theme and asks for it; the theme effect
    runs for ['light']; when the saved theme differs, the provider renders
    again and the theme effect runs for it. *)
Definition mount (titlebar1 titlebar2 : option string) (page : World)
  : option World :=
  let first := setTheme "light" page in
  let asked := theme (loadSavedTheme first) in
  match applyTheme titlebar1 first with
  | None => None
  | Some applied =>
      if String.eqb asked "light" then Some applied
      else applyTheme titlebar2 (setTheme asked applied)
  end.

End ThemeProvider.

(** ** Matching, in the words of the specification

    What it is for a tab to be the one an event is matched to, written
    from the data alone (no [find], none of the tests of the listener), to
    compare with [SessionSync.matchTab]. *)

Module Matching.
Import JsString.









End Matching.

(** Tabs and events for the cases where several tabs, or several paths of
    one tab, could answer an event. *)
Module MatchingScenario.









(** A [stopped] event whose error is the empty string. *)
Definition stoppedS1EmptyError : Payload.t :=
  Scenario.event "s1" Payload.stopped (Some EmptyString) None.

End MatchingScenario.

(** * Properties *)

(** ** String primitives *)

Module JsStringFacts.
Import JsString.

Ltac each_unit c :=
  destruct c as [[] [] [] [] [] [] [] []]; vm_compute; try reflexivity;
  try discriminate; try congruence.

Lemma lowerUnit_not_upper (c : ascii) : isUpperUnit (lowerUnit c) = false.
Proof. each_unit c. Qed.

Lemma lowerUnit_backslash (c : ascii) :
  isBackslash c = false -> isBackslash (lowerUnit c) = false.
Proof. each_unit c. Qed.

Lemma occurs_mapUnits (c : ascii) (f : ascii -> ascii) (s : string) :
  (forall d, Ascii.eqb c (f d) = false) -> occurs c (mapUnits f s) = false.
Proof.
  intros Hf. induction s as [|d rest IH]; simpl.
  - reflexivity.
  - now rewrite Hf, IH.
Qed.

Lemma replaceBackslashes_none (s : string) :
  occurs backslash (replaceBackslashes s) = false.
Proof.
  apply occurs_mapUnits. intros d.
  destruct (isBackslash d) eqn:E.
  - reflexivity.
  - unfold isBackslash in E. now rewrite Ascii.eqb_sym.
Qed.

Lemma toLowerCase_keeps_no_backslash (s : string) :
  occurs backslash s = false -> occurs backslash (toLowerCase s) = false.
Proof.
  unfold toLowerCase.
  induction s as [|d rest IH]; cbn [occurs mapUnits]; intros H.
  - reflexivity.
  - apply orb_false_iff in H. destruct H as [Hd Hrest].
    rewrite (IH Hrest), orb_false_r.
    rewrite Ascii.eqb_sym. apply lowerUnit_backslash.
    unfold isBackslash. now rewrite Ascii.eqb_sym.
Qed.

Lemma toLowerCase_lower (s : string) :
  allUnits (fun c => negb (isUpperUnit c)) (toLowerCase s) = true.
Proof.
  unfold toLowerCase. induction s as [|d rest IH]; simpl.
  - reflexivity.
  - now rewrite lowerUnit_not_upper, IH.
Qed.

(** Stripping removes a run of slashes at the end, and nothing else. *)
Lemma slashesToEnd_slashes (s : string) :
  slashesToEnd s = true -> exists n, s = slashes (S n).
Proof.
  induction s as [|c rest IH]; simpl; intros H.
  - discriminate.
  - apply andb_true_iff in H. destruct H as [Hc Hrest].
    apply Ascii.eqb_eq in Hc. subst c.
    destruct rest as [|d rest'].
    + now exists 0.
    + destruct (IH Hrest) as [n Hn]. exists (S n). now rewrite Hn.
Qed.

Lemma stripTrailingSlashes_suffix (s : string) :
  exists n, s = stripTrailingSlashes s ++ slashes n.
Proof.
  induction s as [|c rest IH].
  - now exists 0.
  - cbn [stripTrailingSlashes].
    destruct (slashesToEnd (String c rest)) eqn:E.
    + destruct (slashesToEnd_slashes _ E) as [n Hn]. now exists (S n).
    + destruct IH as [n Hn]. exists n. simpl. now rewrite <- Hn.
Qed.

Lemma stripTrailingSlashes_empty (s : string) :
  stripTrailingSlashes s = EmptyString ->
  s = EmptyString \/ slashesToEnd s = true.
Proof.
  destruct s as [|c rest]; cbn [stripTrailingSlashes].
  - now left.
  - destruct (slashesToEnd (String c rest)); [now right | discriminate].
Qed.

Lemma stripTrailingSlashes_last (s : string) :
  lastUnit (stripTrailingSlashes s) <> Some slash.
Proof.
  induction s as [|c rest IH].
  - discriminate.
  - cbn [stripTrailingSlashes].
    destruct (slashesToEnd (String c rest)) eqn:E; [discriminate|].
    destruct (stripTrailingSlashes rest) as [|d r] eqn:R.
    + simpl. intros [= ->].
      destruct (stripTrailingSlashes_empty _ R) as [-> | Hrest].
      * discriminate E.
      * simpl in E. destruct rest; [discriminate|]. now rewrite Hrest in E.
    + exact IH.
Qed.

Lemma stripTrailingSlashes_occurs (c : ascii) (s : string) :
  occurs c s = false -> occurs c (stripTrailingSlashes s) = false.
Proof.
  induction s as [|d rest IH]; intros H.
  - reflexivity.
  - cbn [stripTrailingSlashes].
    destruct (slashesToEnd (String d rest)); [reflexivity|].
    simpl in *. apply orb_false_iff in H. destruct H as [-> Hrest].
    now apply IH.
Qed.

Lemma stripTrailingSlashes_allUnits (p : ascii -> bool) (s : string) :
  allUnits p s = true -> allUnits p (stripTrailingSlashes s) = true.
Proof.
  induction s as [|d rest IH]; intros H.
  - reflexivity.
  - cbn [stripTrailingSlashes].
    destruct (slashesToEnd (String d rest)); [reflexivity|].
    simpl in *. apply andb_true_iff in H. destruct H as [-> Hrest].
    now apply IH.
Qed.

End JsStringFacts.

(** ** The session-state listener *)

Module SessionSyncFacts.
Import JsString SessionSync.

(** *** [Array.prototype.find] *)

Lemma find_firstWith (f : Tab.t -> bool) (tabs : list Tab.t) (tab : Tab.t) :
  find f tabs = Some tab <-> firstWith f tabs tab.
Proof.
  unfold firstWith. induction tabs as [|t rest IH]; simpl.
  - split; [discriminate|]. intros (before & after & H & _).
    now destruct before.
  - destruct (f t) eqn:Ft.
    + split.
      * intros [= ->]. exists [], rest. repeat split; [assumption|].
        intros ? [].
      * intros (before & after & H & Ftab & Hbefore).
        destruct before as [|b before]; simpl in H.
        -- now injection H as -> _.
        -- injection H as <- _. specialize (Hbefore t (or_introl eq_refl)).
           congruence.
    + rewrite IH. split.
      * intros (before & after & -> & Ftab & Hbefore).
        exists (t :: before), after. repeat split; [assumption|].
        intros u [<- | Hu]; [assumption | now apply Hbefore].
      * intros (before & after & H & Ftab & Hbefore).
        destruct before as [|b before]; simpl in H.
        -- injection H as -> _. congruence.
        -- injection H as -> ->. exists before, after.
           repeat split; [assumption|].
           intros u Hu. apply Hbefore. now right.
Qed.

Lemma find_noneWith (f : Tab.t -> bool) (tabs : list Tab.t) :
  find f tabs = None <-> noneWith f tabs.
Proof.
  unfold noneWith. split.
  - intros H t Ht. exact (find_none f tabs H t Ht).
  - intros H. destruct (find f tabs) as [t|] eqn:E; [|reflexivity].
    destruct (find_some f tabs E) as [Hin Ft].
    rewrite (H t Hin) in Ft. discriminate.
Qed.

Lemma firstWith_noneWith (f : Tab.t -> bool) (tabs : list Tab.t) (tab : Tab.t) :
  firstWith f tabs tab -> noneWith f tabs -> False.
Proof.
  intros Hfirst Hnone. apply find_firstWith in Hfirst.
  apply find_noneWith in Hnone. congruence.
Qed.

(** *** What the two tests say about a tab *)


Lemma truthy_spec (s : string) : truthy s = true <-> s <> EmptyString.
Proof. destruct s; simpl; split; congruence. Qed.

(** The path a tab is compared by is its own project path when that is
    set and not empty, and the project path of its session otherwise. *)
Lemma tabProjectPath_spec (t : Tab.t) :
  tabProjectPath t =
  match Tab.projectPath t with
  | Some (String c rest) => Some (String c rest)
  | _ => option_map Session.project_path (Tab.session t)
  end.
Proof.
  unfold tabProjectPath, orElse.
  now destruct (Tab.projectPath t) as [[|c rest]|].
Qed.


(** *** The matching step *)





Lemma matchTab_withError (tabs : list Tab.t) (payload : Payload.t)
  (err : option string) :
  matchTab tabs (withError payload err) = matchTab tabs payload.
Proof. reflexivity. Qed.

(** *** One delivery, by cases *)

Lemma deliver_unmatched (tabs : list Tab.t) (payload : Payload.t) :
  matchTab tabs payload = None ->
  deliver tabs payload =
  [console_warn (noTabMessage (Payload.session_id payload))].
Proof. unfold deliver, onSessionState. now intros ->. Qed.

Lemma deliver_started (tabs : list Tab.t) (payload : Payload.t) (tab : Tab.t) :
  matchTab tabs payload = Some tab ->
  Payload.status payload = Payload.started ->
  deliver tabs payload =
  if isStreaming tab then []
  else [updateTabStreamingStatus (Tab.id tab) true
          (Some (Payload.session_id payload))].
Proof.
  unfold deliver, onSessionState. intros -> ->.
  now destruct (isStreaming tab).
Qed.

Lemma deliver_stopped (tabs : list Tab.t) (payload : Payload.t) (tab : Tab.t) :
  matchTab tabs payload = Some tab ->
  Payload.status payload = Payload.stopped ->
  deliver tabs payload =
  if isStreaming tab then
    updateTabStreamingStatus (Tab.id tab) false None ::
    match Payload.error payload with
    | Some err =>
        if truthy err then
          [console_error
             (stoppedWithErrorMessage (Payload.session_id payload)) err]
        else []
    | None => []
    end
  else [].
Proof.
  unfold deliver, onSessionState. intros -> ->.
  destruct (isStreaming tab); [|reflexivity].
  destruct (Payload.error payload) as [err|]; [|reflexivity].
  now destruct (truthy err).
Qed.

Lemma mutations_deliver_stopped (tabs : list Tab.t) (payload : Payload.t)
  (tab : Tab.t) :
  matchTab tabs payload = Some tab ->
  Payload.status payload = Payload.stopped ->
  mutations (deliver tabs payload) =
  if isStreaming tab then [updateTabStreamingStatus (Tab.id tab) false None]
  else [].
Proof.
  intros Hm Hs. rewrite (deliver_stopped _ _ _ Hm Hs).
  destruct (isStreaming tab); [|reflexivity].
  destruct (Payload.error payload) as [err|]; [|reflexivity].
  now destruct (truthy err).
Qed.

(** *** The matching step and the words of the specification *)








(** *** The scenario of the specification *)

(** Tab A has no session and is opened on [/repo/app]; the [started]
    event of session [s1] reaches it by its project path. *)
Example scenario_started :
  deliver [Scenario.tabB "idle" None; Scenario.tabA "idle" None]
          Scenario.startedS1 =
  [updateTabStreamingStatus "A" true (Some "s1")].
Proof. reflexivity. Qed.

(** Once the registry holds tab A as streaming with session [s1], the
    [stopped] event reaches it by its session identifier, sets it idle and
    reports the error. *)
Example scenario_stopped :
  deliver [Scenario.tabB "idle" None;
           Scenario.tabA "streaming" (Some Scenario.s1)]
          Scenario.stoppedS1Oom =
  [updateTabStreamingStatus "A" false None;
   console_error "[SessionSync] Session s1 stopped with error:" "oom"].
Proof. reflexivity. Qed.

(** Of two tabs opened on the same project the first is the one matched:
    when it is streaming already, a [started] event of a new session calls
    nothing, whatever the state of the second. *)
Example first_tab_on_a_path_is_matched :
  matchTab [Scenario.tabAt "A1" "streaming" None "/repo/app";
            Scenario.tabAt "A2" "idle" None "/repo/app"]
           Scenario.startedS1 =
  Some (Scenario.tabAt "A1" "streaming" None "/repo/app") /\
  deliver [Scenario.tabAt "A1" "streaming" None "/repo/app";
           Scenario.tabAt "A2" "idle" None "/repo/app"]
          Scenario.startedS1 = [].
Proof. split; reflexivity. Qed.

(** A path of slashes only normalizes to the empty string; slashes inside
    a path stay. *)
Example normalizePath_edges :
  normalizePath "///" = EmptyString /\
  normalizePath "D:\Work//" = "d:/work" /\
  normalizePath "/a//B/" = "/a//b".
Proof. repeat split. Qed.

(** *** Started events *)




(** C5. Delivering a [started] event again, to a snapshot in which the tab
    it is matched to is already streaming, calls nothing: no further
    registry mutation (and no diagnostic). *)
Theorem started_again_is_silent (tabs : list Tab.t) (payload : Payload.t)
  (tab : Tab.t) :
  Payload.status payload = Payload.started ->
  matchTab tabs payload = Some tab ->
  isStreaming tab = true ->
  deliver tabs payload = [] /\ mutations (deliver tabs payload) = [].
Proof.
  intros Hstatus Hmatch Hstate.
  rewrite (deliver_started _ _ _ Hmatch Hstatus), Hstate. now split.
Qed.

Lemma started_again_is_silent_witness :
  Payload.status Scenario.startedS1 = Payload.started /\
  matchTab [Scenario.tabB "idle" None;
            Scenario.tabA "streaming" (Some Scenario.s1)]
           Scenario.startedS1 =
  Some (Scenario.tabA "streaming" (Some Scenario.s1)) /\
  isStreaming (Scenario.tabA "streaming" (Some Scenario.s1)) = true /\
  mutations (deliver [Scenario.tabB "idle" None;
                      Scenario.tabA "streaming" (Some Scenario.s1)]
                     Scenario.startedS1) = [].
Proof.
  split; [reflexivity|]. split; [reflexivity|]. split; [reflexivity|].
  apply (started_again_is_silent
           [Scenario.tabB "idle" None;
            Scenario.tabA "streaming" (Some Scenario.s1)]
           Scenario.startedS1
           (Scenario.tabA "streaming" (Some Scenario.s1)));
    reflexivity.
Defined.

(** *** Stopped events *)

(** C2. A [stopped] event matched to a streaming tab makes the registry
    mutation [updateTabStreamingStatus(tab.id, false, null)], which sets
    the tab idle and clears its session identifier, and no other mutation;
    matched to a tab that is not streaming it makes no call at all. *)
Theorem stopped_clears_streaming_tab (tabs : list Tab.t) (payload : Payload.t)
  (tab : Tab.t) :
  Payload.status payload = Payload.stopped ->
  matchTab tabs payload = Some tab ->
  (isStreaming tab = true ->
   mutations (deliver tabs payload) =
   [updateTabStreamingStatus (Tab.id tab) false None]) /\
  (isStreaming tab = false -> deliver tabs payload = []).
Proof.
  intros Hstatus Hmatch. split; intros Hstate.
  - rewrite (mutations_deliver_stopped _ _ _ Hmatch Hstatus). now rewrite Hstate.
  - rewrite (deliver_stopped _ _ _ Hmatch Hstatus). now rewrite Hstate.
Qed.

Lemma stopped_clears_streaming_tab_witness :
  mutations (deliver [Scenario.tabA "streaming" (Some Scenario.s1)]
                     Scenario.stoppedS1Oom) =
  [updateTabStreamingStatus "A" false None] /\
  deliver [Scenario.tabA "idle" (Some Scenario.s1)] Scenario.stoppedS1Oom = [].
Proof.
  split.
  - apply (stopped_clears_streaming_tab
             [Scenario.tabA "streaming" (Some Scenario.s1)]
             Scenario.stoppedS1Oom
             (Scenario.tabA "streaming" (Some Scenario.s1)));
      reflexivity.
  - apply (stopped_clears_streaming_tab
             [Scenario.tabA "idle" (Some Scenario.s1)]
             Scenario.stoppedS1Oom
             (Scenario.tabA "idle" (Some Scenario.s1)));
      reflexivity.
Defined.

(** C6, as the specification states it, fails, in two ways. A [stopped]
    event that carries the error [oom] and is matched to a tab that is not
    streaming logs nothing. And a [stopped] event that carries an error
    that is the empty string, matched to a streaming tab, makes the
    mutation and logs nothing. *)
Lemma stopped_error_on_idle_tab_unlogged :
  (Payload.status Scenario.stoppedS1Oom = Payload.stopped /\
   Payload.error Scenario.stoppedS1Oom = Some "oom" /\
   matchTab [Scenario.tabA "idle" (Some Scenario.s1)] Scenario.stoppedS1Oom =
   Some (Scenario.tabA "idle" (Some Scenario.s1)) /\
   ~ (exists message detail,
         In (console_error message detail)
            (deliver [Scenario.tabA "idle" (Some Scenario.s1)]
                     Scenario.stoppedS1Oom))) /\
  (Payload.status MatchingScenario.stoppedS1EmptyError = Payload.stopped /\
   Payload.error MatchingScenario.stoppedS1EmptyError = Some EmptyString /\
   matchTab [Scenario.tabA "streaming" (Some Scenario.s1)]
            MatchingScenario.stoppedS1EmptyError =
   Some (Scenario.tabA "streaming" (Some Scenario.s1)) /\
   deliver [Scenario.tabA "streaming" (Some Scenario.s1)]
           MatchingScenario.stoppedS1EmptyError =
   [updateTabStreamingStatus "A" false None] /\
   ~ (exists message detail,
         In (console_error message detail)
            (deliver [Scenario.tabA "streaming" (Some Scenario.s1)]
                     MatchingScenario.stoppedS1EmptyError))).
Proof.
  split.
  - split; [reflexivity|]. split; [reflexivity|]. split; [reflexivity|].
    intros (message & detail & H). exact H.
  - split; [reflexivity|]. split; [reflexivity|]. split; [reflexivity|].
    split; [reflexivity|].
    intros (message & detail & [H | H]); [discriminate H | exact H].
Qed.

(** C6, amended. For a [stopped] event and the tab it is matched to: when
    the tab is streaming and the event carries an error that is not
    empty, the delivery makes the mutation and then logs an error naming
    the session identifier, with the error text; whatever the error field
    holds, the registry mutations of the delivery are the same, and a
    streaming tab is set idle; when the tab is not streaming the delivery
    makes no call, error or not. *)
Theorem stopped_error_logged_when_streaming (tabs : list Tab.t)
  (payload : Payload.t) (tab : Tab.t) :
  Payload.status payload = Payload.stopped ->
  matchTab tabs payload = Some tab ->
  (Tab.state tab = "streaming" ->
   forall err,
     Payload.error payload = Some err ->
     err <> EmptyString ->
     deliver tabs payload =
     [updateTabStreamingStatus (Tab.id tab) false None;
      console_error
        ("[SessionSync] Session " ++ Payload.session_id payload
           ++ " stopped with error:") err]) /\
  (forall other : option string,
      mutations (deliver tabs (withError payload other)) =
      mutations (deliver tabs payload)) /\
  (Tab.state tab = "streaming" ->
   mutations (deliver tabs payload) =
   [updateTabStreamingStatus (Tab.id tab) false None]) /\
  (Tab.state tab <> "streaming" -> deliver tabs payload = []).
Proof.
  intros Hstatus Hmatch. split; [|split; [|split]].
  - intros Hstate err Herr Hne.
    rewrite (deliver_stopped _ _ _ Hmatch Hstatus), Herr.
    unfold isStreaming. rewrite Hstate. cbn [String.eqb Ascii.eqb Bool.eqb].
    apply truthy_spec in Hne. now rewrite Hne.
  - intros other.
    rewrite (mutations_deliver_stopped _ _ _ Hmatch Hstatus).
    now rewrite (mutations_deliver_stopped tabs (withError payload other) tab).
  - intros Hstate.
    rewrite (mutations_deliver_stopped _ _ _ Hmatch Hstatus).
    unfold isStreaming. now rewrite Hstate.
  - intros Hstate.
    rewrite (deliver_stopped _ _ _ Hmatch Hstatus).
    unfold isStreaming. now apply String.eqb_neq in Hstate as ->.
Qed.

Lemma stopped_error_logged_when_streaming_witness :
  deliver [Scenario.tabA "streaming" (Some Scenario.s1)] Scenario.stoppedS1Oom =
  [updateTabStreamingStatus "A" false None;
   console_error "[SessionSync] Session s1 stopped with error:" "oom"] /\
  mutations (deliver [Scenario.tabA "streaming" (Some Scenario.s1)]
                     (withError Scenario.stoppedS1Oom None)) =
  mutations (deliver [Scenario.tabA "streaming" (Some Scenario.s1)]
                     Scenario.stoppedS1Oom) /\
  deliver [Scenario.tabA "idle" (Some Scenario.s1)] Scenario.stoppedS1Oom = [].
Proof.
  assert (H : "oom" <> EmptyString) by discriminate.
  assert (Hidle : "idle" <> "streaming") by discriminate.
  destruct (stopped_error_logged_when_streaming
              [Scenario.tabA "streaming" (Some Scenario.s1)]
              Scenario.stoppedS1Oom
              (Scenario.tabA "streaming" (Some Scenario.s1))
              eq_refl eq_refl) as (Hlog & Hsame & _ & _).
  destruct (stopped_error_logged_when_streaming
              [Scenario.tabA "idle" (Some Scenario.s1)]
              Scenario.stoppedS1Oom
              (Scenario.tabA "idle" (Some Scenario.s1))
              eq_refl eq_refl) as (_ & _ & _ & Hnothing).
  split; [exact (Hlog eq_refl "oom" eq_refl H)|].
  split; [exact (Hsame None) | exact (Hnothing Hidle)].
Defined.

(** *** Matching *)




(** C4. [normalizePath] turns every backslash into a slash, lower-cases,
    and removes the slashes at the end: its result holds no backslash and
    no upper-case unit, does not end with a slash, and differs from the
    lower-cased, slash-separated path by a run of slashes at the end only.
    The three Windows spellings of the specification normalize to the same
    string, so a tab opened on any of them is matched by an event that
    carries any other. *)
Theorem normalizePath_equates_windows_paths :
  (forall p,
      occurs backslash (normalizePath p) = false /\
      allUnits (fun c => negb (isUpperUnit c)) (normalizePath p) = true /\
      lastUnit (normalizePath p) <> Some slash /\
      exists n,
        toLowerCase (replaceBackslashes p) = normalizePath p ++ slashes n) /\
  map normalizePath Scenario.windowsPaths =
  ["c:/users/x/proj"; "c:/users/x/proj"; "c:/users/x/proj"] /\
  (forall id state session,
      forallb
        (fun tabPath =>
           forallb
             (fun eventPath =>
                hasProjectPath (normalizePath eventPath)
                               (Scenario.tabAt id state session tabPath))
             Scenario.windowsPaths)
        Scenario.windowsPaths = true).
Proof.
  split; [|split].
  - intros p. unfold normalizePath. repeat split.
    + apply JsStringFacts.stripTrailingSlashes_occurs,
        JsStringFacts.toLowerCase_keeps_no_backslash,
        JsStringFacts.replaceBackslashes_none.
    + apply JsStringFacts.stripTrailingSlashes_allUnits,
        JsStringFacts.toLowerCase_lower.
    + apply JsStringFacts.stripTrailingSlashes_last.
    + apply JsStringFacts.stripTrailingSlashes_suffix.
  - reflexivity.
  - intros id state session. reflexivity.
Qed.

(** *** One event, at most one mutation *)

(** C7. One delivery makes at most one registry mutation; a mutation it
    makes is for the tab the event is matched to; and a [stopped] event
    matched to a tab that is not streaming makes no call. *)
Theorem at_most_one_mutation (tabs : list Tab.t) (payload : Payload.t) :
  (length (mutations (deliver tabs payload)) <= 1)%nat /\
  (forall tabId streaming sessionId,
      In (updateTabStreamingStatus tabId streaming sessionId)
         (deliver tabs payload) ->
      exists tab, matchTab tabs payload = Some tab /\ tabId = Tab.id tab) /\
  (forall tab,
      Payload.status payload = Payload.stopped ->
      matchTab tabs payload = Some tab ->
      isStreaming tab = false ->
      deliver tabs payload = []).
Proof.
  assert (Hlog : forall rest,
             (forall c, In c rest -> isMutation c = false) ->
             mutations rest = []).
  { induction rest as [|c rest IH]; simpl; intros H; [reflexivity|].
    rewrite (H c (or_introl eq_refl)). apply IH.
    intros d Hd. apply H. now right. }
  destruct (matchTab tabs payload) as [tab|] eqn:Hmatch.
  - destruct (Payload.status payload) eqn:Hstatus.
    + rewrite (deliver_started _ _ _ Hmatch Hstatus).
      destruct (isStreaming tab); (split; [simpl; lia | split]).
      * intros tabId streaming sessionId [].
      * discriminate.
      * intros tabId streaming sessionId [[= <- _ _] | []]. now exists tab.
      * discriminate.
    + rewrite (deliver_stopped _ _ _ Hmatch Hstatus).
      destruct (isStreaming tab) eqn:Hstate; (split; [|split]).
      * simpl. rewrite Hlog; [simpl; lia|].
        destruct (Payload.error payload) as [err|]; [|intros ? []].
        destruct (truthy err); [|intros ? []].
        now intros c [<- | []].
      * intros tabId streaming sessionId [[= <- _ _] | Hin].
        -- now exists tab.
        -- destruct (Payload.error payload) as [err|]; [|destruct Hin].
           destruct (truthy err); [|destruct Hin].
           destruct Hin as [[=] | []].
      * intros tab' _ [= <-]. congruence.
      * simpl; lia.
      * intros tabId streaming sessionId [].
      * reflexivity.
  - rewrite (deliver_unmatched _ _ Hmatch). split; [simpl; lia | split].
    + intros tabId streaming sessionId [[=] | []].
    + discriminate.
Qed.

Lemma at_most_one_mutation_witness :
  (length (mutations (deliver [Scenario.tabA "idle" (Some Scenario.s1)]
                              Scenario.stoppedS1Oom)) <= 1)%nat /\
  deliver [Scenario.tabA "idle" (Some Scenario.s1)] Scenario.stoppedS1Oom = [].
Proof.
  split.
  - apply (proj1 (at_most_one_mutation
                    [Scenario.tabA "idle" (Some Scenario.s1)]
                    Scenario.stoppedS1Oom)).
  - apply (proj2 (proj2 (at_most_one_mutation
                           [Scenario.tabA "idle" (Some Scenario.s1)]
                           Scenario.stoppedS1Oom))
                 (Scenario.tabA "idle" (Some Scenario.s1)));
      reflexivity.
Defined.

End SessionSyncFacts.

(** ** Loading the custom commands *)

Module CustomSlashCommandsFacts.
Import JsString CustomSlashCommands.

(** *** [String.prototype.includes] *)

Lemma prefix_spec (pat s : string) :
  String.prefix pat s = true <-> exists after, s = pat ++ after.
Proof.
  revert s. induction pat as [|c pat IH]; intros s.
  - split; [now exists s | now destruct s].
  - destruct s as [|d s]; simpl.
    + split; [discriminate | now intros (after & H)].
    + destruct (Ascii.ascii_dec c d) as [<- | Hne].
      * rewrite IH. split.
        -- intros (after & ->). now exists after.
        -- intros (after & [= ->]). now exists after.
      * split; [discriminate|]. intros (after & [= <- _]). congruence.
Qed.

Lemma includes_spec (s pat : string) :
  includes s pat = true <-> exists before after, s = before ++ pat ++ after.
Proof.
  induction s as [|c s IH]; cbn [includes]; rewrite orb_true_iff, prefix_spec.
  - split.
    + intros [(after & ->) | H]; [|discriminate].
      now exists EmptyString, after.
    + intros ([|d before] & after & H); [|discriminate].
      left. now exists after.
  - rewrite IH. split.
    + intros [(after & ->) | (before & after & ->)].
      * now exists EmptyString, after.
      * now exists (String c before), after.
    + intros ([|d before] & after & H).
      * left. now exists after.
      * right. injection H as -> ->. now exists before, after.
Qed.

(** *** A failing retrieval *)



End CustomSlashCommandsFacts.

(** ** The slash-command menu *)

Module SlashCommandMenuFacts.
Import SlashCommandMenu.

Lemma isOpen_nonempty (r : Render) (st : HookState) :
  isOpen r st = true -> (0 < lengthOf r)%Z.
Proof.
  unfold isOpen. intros H. apply andb_true_iff in H. destruct H as [_ H].
  now apply Z.ltb_lt.
Qed.

Lemma handleKeyDown_ArrowUp (r : Render) (st : HookState) :
  isOpen r st = true ->
  runState (handleKeyDown r "ArrowUp") st =
  (true, {| selectedIndex := arrowUp r (selectedIndex st);
            isManuallyClose := isManuallyClose st;
            calls := (calls st ++ [preventDefault])%list |}).
Proof. intros H. unfold handleKeyDown. simpl. now rewrite H. Qed.

Lemma handleKeyDown_ArrowDown (r : Render) (st : HookState) :
  isOpen r st = true ->
  runState (handleKeyDown r "ArrowDown") st =
  (true, {| selectedIndex := arrowDown r (selectedIndex st);
            isManuallyClose := isManuallyClose st;
            calls := (calls st ++ [preventDefault])%list |}).
Proof. intros H. unfold handleKeyDown. simpl. now rewrite H. Qed.

Lemma arrowUp_range (r : Render) (prev : Z) :
  (0 <= prev < lengthOf r)%Z ->
  (0 <= arrowUp r prev < lengthOf r)%Z /\
  arrowUp r prev = (if (prev =? 0)%Z then lengthOf r - 1 else prev - 1)%Z.
Proof.
  intros H. unfold arrowUp.
  destruct (Z.ltb_spec 0 prev), (Z.eqb_spec prev 0); lia.
Qed.

Lemma arrowDown_range (r : Render) (prev : Z) :
  (0 <= prev < lengthOf r)%Z ->
  (0 <= arrowDown r prev < lengthOf r)%Z /\
  arrowDown r prev =
  (if (prev =? lengthOf r - 1)%Z then 0 else prev + 1)%Z.
Proof.
  intros H. unfold arrowDown.
  destruct (Z.ltb_spec prev (lengthOf r - 1)),
    (Z.eqb_spec prev (lengthOf r - 1)); lia.
Qed.

(** C9. While the menu is open and the selected index is within
    [0, length - 1], ArrowUp and ArrowDown are consumed and leave the
    index within that range: ArrowUp moves to the previous index and from
    0 to the last one, ArrowDown moves to the next index and from the last
    one to 0. *)
Theorem arrow_keys_cycle_in_range (r : Render) (st : HookState) :
  isOpen r st = true ->
  (0 <= selectedIndex st <= lengthOf r - 1)%Z ->
  let up := runState (handleKeyDown r "ArrowUp") st in
  let down := runState (handleKeyDown r "ArrowDown") st in
  fst up = true /\ fst down = true /\
  (0 <= selectedIndex (snd up) <= lengthOf r - 1)%Z /\
  (0 <= selectedIndex (snd down) <= lengthOf r - 1)%Z /\
  selectedIndex (snd up) =
  (if (selectedIndex st =? 0)%Z then lengthOf r - 1
   else selectedIndex st - 1)%Z /\
  selectedIndex (snd down) =
  (if (selectedIndex st =? lengthOf r - 1)%Z then 0
   else selectedIndex st + 1)%Z.
Proof.
  intros Hopen Hrange up down. subst up down.
  rewrite (handleKeyDown_ArrowUp _ _ Hopen), (handleKeyDown_ArrowDown _ _ Hopen).
  cbn [fst snd selectedIndex].
  assert (Hin : (0 <= selectedIndex st < lengthOf r)%Z) by lia.
  destruct (arrowUp_range r _ Hin) as [Hup Hup'].
  destruct (arrowDown_range r _ Hin) as [Hdown Hdown'].
  repeat split; try assumption; lia.
Qed.

Lemma arrow_keys_cycle_in_range_witness :
  selectedIndex
    (snd (runState (handleKeyDown MenuScenario.threeCommands "ArrowUp")
                   (MenuScenario.selecting 0))) = 2%Z /\
  selectedIndex
    (snd (runState (handleKeyDown MenuScenario.threeCommands "ArrowDown")
                   (MenuScenario.selecting 0))) = 1%Z.
Proof.
  assert (Hrange : (0 <= 0 <= 3 - 1)%Z) by lia.
  destruct (arrow_keys_cycle_in_range
              MenuScenario.threeCommands (MenuScenario.selecting 0)
              eq_refl Hrange) as (_ & _ & _ & _ & Hup & Hdown).
  split; [exact Hup | exact Hdown].
Defined.

End SlashCommandMenuFacts.

(** ** The theme *)

Module ThemeContextFacts.
Import ThemeContext.

(** C10. [toggleTheme] takes the theme cell from light to dark and from
    dark to light: it applies the updater [toggle], which swaps the two
    values; so toggling twice gives back the theme one started from. *)
Theorem toggleTheme_involution :
  toggle light = dark /\ toggle dark = light /\
  (forall theme, toggle (toggle theme) = theme) /\
  (forall theme, execState (toggleTheme ;; toggleTheme) theme = theme) /\
  execState toggleTheme light = dark /\
  execState toggleTheme dark = light /\
  (forall theme, execState toggleTheme theme = toggle theme) /\
  (forall theme, execState toggleTheme theme <> theme).
Proof.
  split; [reflexivity|]. split; [reflexivity|].
  split; [intros []; reflexivity|]. split; [intros []; reflexivity|].
  split; [reflexivity|]. split; [reflexivity|].
  split; [intros []; reflexivity | intros []; discriminate].
Qed.

End ThemeContextFacts.

(** ** Path normalization, beyond the three spellings *)

Module NormalizePathFacts.
Import JsString JsStringExtra SessionSync JsStringFacts.

Lemma mapUnits_app (f : ascii -> ascii) (s t : string) :
  mapUnits f (s ++ t) = mapUnits f s ++ mapUnits f t.
Proof. induction s as [|c s IH]; simpl; [reflexivity | now rewrite IH]. Qed.

Lemma mapUnits_ext (f g : ascii -> ascii) (s : string) :
  (forall c, f c = g c) -> mapUnits f s = mapUnits g s.
Proof.
  intros H. induction s as [|c s IH]; simpl; [reflexivity|].
  now rewrite H, IH.
Qed.

Lemma mapUnits_mapUnits (f g : ascii -> ascii) (s : string) :
  mapUnits f (mapUnits g s) = mapUnits (fun c => f (g c)) s.
Proof. induction s as [|c s IH]; simpl; [reflexivity | now rewrite IH]. Qed.

Lemma mapUnits_fixed (f : ascii -> ascii) (s : string) :
  allUnits (fun c => Ascii.eqb (f c) c) s = true -> mapUnits f s = s.
Proof.
  induction s as [|c s IH]; cbn [allUnits mapUnits]; intros H.
  - reflexivity.
  - apply andb_true_iff in H. destruct H as [Hc Hs].
    apply Ascii.eqb_eq in Hc. now rewrite Hc, IH.
Qed.

Lemma canonical_form (p : string) :
  normalizePath p = stripTrailingSlashes (mapUnits canonicalUnit p).
Proof.
  unfold normalizePath, toLowerCase, replaceBackslashes.
  now rewrite mapUnits_mapUnits.
Qed.

Lemma canonicalUnit_idempotent (c : ascii) :
  Ascii.eqb (canonicalUnit (canonicalUnit c)) (canonicalUnit c) = true.
Proof. each_unit c. Qed.

Lemma canonicalUnit_lowerUnit (c : ascii) :
  canonicalUnit (lowerUnit c) = canonicalUnit c.
Proof. each_unit c. Qed.

Lemma canonicalUnit_replace (c : ascii) :
  canonicalUnit (if isBackslash c then slash else c) = canonicalUnit c.
Proof. each_unit c. Qed.

Lemma canonicalUnit_separator (c : ascii) :
  isSlash (canonicalUnit c) = isSeparator c.
Proof. each_unit c. Qed.

Lemma canonical_fixed (p : string) :
  allUnits (fun c => Ascii.eqb (canonicalUnit c) c) (mapUnits canonicalUnit p)
  = true.
Proof.
  induction p as [|c p IH]; cbn [allUnits mapUnits]; [reflexivity|].
  now rewrite canonicalUnit_idempotent, IH.
Qed.

Lemma lastUnit_slashes (n : nat) : lastUnit (slashes (S n)) = Some slash.
Proof. induction n as [|n IH]; [reflexivity | exact IH]. Qed.

Lemma stripTrailingSlashes_fixed (s : string) :
  lastUnit s <> Some slash -> stripTrailingSlashes s = s.
Proof.
  induction s as [|c rest IH]; intros Hlast; [reflexivity|].
  cbn [stripTrailingSlashes].
  destruct (slashesToEnd (String c rest)) eqn:E.
  - destruct (slashesToEnd_slashes _ E) as [n Hn].
    rewrite Hn, lastUnit_slashes in Hlast. congruence.
  - f_equal. apply IH. destruct rest as [|d rest']; [discriminate|].
    exact Hlast.
Qed.

Lemma slashesToEnd_all (s : string) :
  slashesToEnd s = truthy s && allUnits isSlash s.
Proof.
  induction s as [|c rest IH]; [reflexivity|].
  cbn [slashesToEnd truthy allUnits andb].
  destruct rest as [|d rest']; [reflexivity|].
  now rewrite IH.
Qed.

Lemma stripTrailingSlashes_empty_iff (s : string) :
  stripTrailingSlashes s = EmptyString <-> allUnits isSlash s = true.
Proof.
  split.
  - intros H. destruct (stripTrailingSlashes_empty _ H) as [-> | Hs].
    + reflexivity.
    + rewrite slashesToEnd_all in Hs. now apply andb_true_iff in Hs.
  - intros H. destruct s as [|c rest]; [reflexivity|].
    cbn [stripTrailingSlashes].
    now rewrite slashesToEnd_all, H.
Qed.

Lemma slashesToEnd_app_slashes (s : string) (n : nat) :
  s <> EmptyString -> slashesToEnd (s ++ slashes n) = slashesToEnd s.
Proof.
  induction s as [|c rest IH]; intros Hne; [congruence|].
  cbn [append slashesToEnd].
  destruct rest as [|d rest'].
  - cbn [append]. destruct n as [|n]; [reflexivity|].
    assert (H : slashesToEnd (slashes (S n)) = true).
    { rewrite slashesToEnd_all. clear. induction n as [|n IH]; [reflexivity|].
      cbn [slashes truthy allUnits andb] in *. now rewrite IH. }
    cbn [slashes] in *. now rewrite H.
  - rewrite <- IH by discriminate. reflexivity.
Qed.

Lemma stripTrailingSlashes_app_slashes (s : string) (n : nat) :
  stripTrailingSlashes (s ++ slashes n) = stripTrailingSlashes s.
Proof.
  induction s as [|c rest IH].
  - cbn [append stripTrailingSlashes].
    apply stripTrailingSlashes_empty_iff.
    induction n as [|n IH]; [reflexivity | exact IH].
  - change (String c rest ++ slashes n) with (String c (rest ++ slashes n)).
    cbn [stripTrailingSlashes].
    change (String c (rest ++ slashes n)) with (String c rest ++ slashes n).
    rewrite slashesToEnd_app_slashes by discriminate.
    now rewrite IH.
Qed.

Lemma canonical_separators (seps : string) :
  allUnits isSeparator seps = true ->
  mapUnits canonicalUnit seps = slashes (String.length seps).
Proof.
  induction seps as [|c rest IH]; cbn [allUnits mapUnits String.length slashes];
    intros H; [reflexivity|].
  apply andb_true_iff in H. destruct H as [Hc Hrest].
  rewrite <- canonicalUnit_separator in Hc. apply Ascii.eqb_eq in Hc.
  now rewrite Hc, IH.
Qed.

(** X1. Normalizing a normalized path changes nothing. *)
Theorem normalizePath_idempotent (p : string) :
  normalizePath (normalizePath p) = normalizePath p.
Proof.
  rewrite (canonical_form (normalizePath p)), (canonical_form p).
  rewrite mapUnits_fixed.
  - apply stripTrailingSlashes_fixed, stripTrailingSlashes_last.
  - apply stripTrailingSlashes_allUnits, canonical_fixed.
Qed.

(** X2. Letter case, the style of the separators and any run of
    separators at the end do not count: lower-casing a path, writing its
    backslashes as slashes, or appending separators of either style gives
    a path with the same normal form. *)
Theorem normalizePath_ignores_spelling (p seps : string) :
  allUnits isSeparator seps = true ->
  normalizePath (toLowerCase p) = normalizePath p /\
  normalizePath (replaceBackslashes p) = normalizePath p /\
  normalizePath (p ++ seps) = normalizePath p.
Proof.
  intros Hseps. rewrite !canonical_form. repeat split.
  - unfold toLowerCase. rewrite mapUnits_mapUnits.
    f_equal. apply mapUnits_ext, canonicalUnit_lowerUnit.
  - unfold replaceBackslashes. rewrite mapUnits_mapUnits.
    f_equal. apply mapUnits_ext, canonicalUnit_replace.
  - rewrite mapUnits_app, (canonical_separators _ Hseps).
    apply stripTrailingSlashes_app_slashes.
Qed.

Lemma normalizePath_ignores_spelling_witness :
  normalizePath ("C:\Users\X" ++ "\/\/") = normalizePath "C:\Users\X".
Proof.
  apply (normalizePath_ignores_spelling "C:\Users\X" "\/\/"). reflexivity.
Defined.

(** X3. The normal form is empty exactly for the paths made of separators
    only (the empty path among them): the root directory, however it is
    spelled, is compared as the empty string. *)
Theorem normalizePath_empty_iff (p : string) :
  normalizePath p = EmptyString <-> allUnits isSeparator p = true.
Proof.
  rewrite canonical_form, stripTrailingSlashes_empty_iff.
  assert (H : allUnits isSlash (mapUnits canonicalUnit p) =
              allUnits isSeparator p).
  { induction p as [|c p IH]; cbn [allUnits mapUnits]; [reflexivity|].
    now rewrite canonicalUnit_separator, IH. }
  now rewrite H.
Qed.

(** X4. The project path of a tab shadows that of its session: a tab
    whose own path is set (and not empty) is compared by that path alone,
    so an event of another session that carries a different path is not
    matched to it and, the tab being alone, only gets the warning; this
    whatever the project path of the session of the tab. *)
Theorem own_project_path_shadows_session (t : Tab.t) (payload : Payload.t)
  (own eventPath : string) :
  Tab.projectPath t = Some own ->
  own <> EmptyString ->
  hasSessionId (Payload.session_id payload) t = false ->
  Payload.project_path payload = Some eventPath ->
  normalizePath own <> normalizePath eventPath ->
  (forall n, hasProjectPath n t = String.eqb (normalizePath own) n) /\
  deliver [t] payload =
  [console_warn
     ("[SessionSync] No tab found for session " ++ Payload.session_id payload)].
Proof.
  intros Hown Hne Hid Hpath Hdiff.
  assert (Hhas : forall n, hasProjectPath n t = String.eqb (normalizePath own) n).
  { intros n. unfold hasProjectPath.
    rewrite SessionSyncFacts.tabProjectPath_spec, Hown.
    destruct own as [|c rest]; [congruence | reflexivity]. }
  split; [exact Hhas|].
  apply SessionSyncFacts.deliver_unmatched.
  unfold matchTab. cbn [find]. rewrite Hid, Hpath.
  destruct (truthy eventPath); [|reflexivity].
  cbn [find]. rewrite Hhas.
  now apply String.eqb_neq in Hdiff as ->.
Qed.

Lemma own_project_path_shadows_session_witness :
  deliver [Scenario.tabAt "A" "idle"
             (Some {| Session.id := "s0"; Session.project_path := "/repo/lib" |})
             "/repo/app"]
          (Scenario.event "s2" Payload.started None (Some "/repo/lib")) =
  [console_warn "[SessionSync] No tab found for session s2"].
Proof.
  apply (own_project_path_shadows_session
           (Scenario.tabAt "A" "idle"
              (Some {| Session.id := "s0"; Session.project_path := "/repo/lib" |})
              "/repo/app")
           (Scenario.event "s2" Payload.started None (Some "/repo/lib"))
           "/repo/app" "/repo/lib");
    try reflexivity; discriminate.
Defined.

End NormalizePathFacts.

(** ** The listener: shape of a delivery, set-up and release *)

Module SessionSyncMoreFacts.
Import JsString SessionSync.

(** X5. A delivery is one of: nothing; one mutation; for a [stopped]
    event, the clearing mutation followed by one error; one warning. A
    [started] event never clears a tab, a [stopped] event never sets one
    streaming, and a warning never comes with a mutation. *)
Theorem delivery_shapes (tabs : list Tab.t) (payload : Payload.t) :
  let session_id := Payload.session_id payload in
  let log := deliver tabs payload in
  match Payload.status payload with
  | Payload.started =>
      log = [] \/
      (exists tab, log = [updateTabStreamingStatus (Tab.id tab) true
                            (Some session_id)]) \/
      log = [console_warn (noTabMessage session_id)]
  | Payload.stopped =>
      log = [] \/
      (exists tab, log = [updateTabStreamingStatus (Tab.id tab) false None]) \/
      (exists tab err,
          log = [updateTabStreamingStatus (Tab.id tab) false None;
                 console_error (stoppedWithErrorMessage session_id) err]) \/
      log = [console_warn (noTabMessage session_id)]
  end.
Proof.
  intros session_id log. subst session_id log.
  destruct (matchTab tabs payload) as [tab|] eqn:Hmatch.
  - destruct (Payload.status payload) eqn:Hstatus.
    + rewrite (SessionSyncFacts.deliver_started _ _ _ Hmatch Hstatus).
      destruct (isStreaming tab); [now left | right; left; now exists tab].
    + rewrite (SessionSyncFacts.deliver_stopped _ _ _ Hmatch Hstatus).
      destruct (isStreaming tab); [|now left].
      destruct (Payload.error payload) as [err|].
      * destruct (truthy err).
        -- right; right; left. now exists tab, err.
        -- right; left. now exists tab.
      * right; left. now exists tab.
  - rewrite (SessionSyncFacts.deliver_unmatched _ _ Hmatch).
    destruct (Payload.status payload); [right; right | right; right; right];
      reflexivity.
Qed.

End SessionSyncMoreFacts.

Module SessionSyncLifecycleFacts.
Import SessionSyncLifecycle.

Lemma run_app (a b : list Step) (e : Effect) :
  run (a ++ b) e = run b (run a e).
Proof.
  revert e. induction a as [|s a IH]; intros e; [reflexivity|].
  simpl. apply IH.
Qed.

Lemma releases_step (s : Step) (e : Effect) :
  releases (step s e) =
  (releases e + if isCleanup s && unlisten e then 1 else 0)%nat.
Proof.
  unfold releases.
  destruct s as [|error|]; cbn [step isCleanup andb log].
  - now rewrite Nat.add_0_r.
  - now rewrite filter_app, length_app.
  - destruct (unlisten e); cbn [log].
    + now rewrite filter_app, length_app.
    + now rewrite Nat.add_0_r.
Qed.

Lemma unlisten_step (s : Step) (e : Effect) :
  unlisten (step s e) = isResolve s || unlisten e.
Proof.
  destruct s as [|error|]; cbn [step isResolve orb unlisten]; try reflexivity.
  destruct (unlisten e) eqn:E; [reflexivity | exact E].
Qed.

Lemma run_without_cleanup (steps : list Step) (e : Effect) :
  forallb (fun s => negb (isCleanup s)) steps = true ->
  releases (run steps e) = releases e.
Proof.
  revert e. induction steps as [|s steps IH]; intros e H; [reflexivity|].
  cbn [forallb run] in *. apply andb_true_iff in H. destruct H as [Hs Hrest].
  rewrite (IH _ Hrest), releases_step.
  apply negb_true_iff in Hs. rewrite Hs. apply Nat.add_0_r.
Qed.

Lemma run_without_resolve (steps : list Step) (e : Effect) :
  forallb (fun s => negb (isResolve s)) steps = true ->
  unlisten e = false ->
  unlisten (run steps e) = false /\ releases (run steps e) = releases e.
Proof.
  revert e. induction steps as [|s steps IH]; intros e H He; [now split|].
  cbn [forallb run] in *. apply andb_true_iff in H. destruct H as [Hs Hrest].
  apply negb_true_iff in Hs.
  assert (Hstep : unlisten (step s e) = false)
    by now rewrite unlisten_step, Hs, He.
  destruct (IH _ Hrest Hstep) as [Hu Hr]. split; [exact Hu|].
  rewrite Hr, releases_step, He, andb_false_r. apply Nat.add_0_r.
Qed.

(** X6. The subscription is released by a cleanup only if [listen] has
    resolved by then. When every cleanup comes before [listen] resolves,
    the subscription is never released, whatever follows; when [listen]
    resolves first and one cleanup follows, it is released exactly once. A
    rejected [listen] releases nothing. *)
Theorem release_needs_resolved_listen (before between after : list Step) :
  forallb (fun s => negb (isResolve s)) before = true ->
  forallb (fun s => negb (isCleanup s)) between = true ->
  forallb (fun s => negb (isCleanup s)) after = true ->
  releases (run (before ++ between) mounted) = 0%nat /\
  releases (run (before ++ listenResolves :: between ++ cleanup :: after)
                mounted) =
  1%nat.
Proof.
  intros Hbefore Hbetween Hafter.
  destruct (run_without_resolve before mounted Hbefore eq_refl) as [Hu Hr].
  split.
  - rewrite run_app, (run_without_cleanup _ _ Hbetween). exact Hr.
  - rewrite run_app. cbn [run]. rewrite run_app. cbn [run].
    rewrite (run_without_cleanup _ _ Hafter), releases_step.
    assert (Hkept : forall steps e,
               unlisten e = true -> unlisten (run steps e) = true).
    { induction steps as [|s steps IH]; intros e He; [exact He|].
      cbn [run]. apply IH. now rewrite unlisten_step, He, orb_true_r. }
    rewrite (Hkept between) by reflexivity.
    rewrite (run_without_cleanup _ _ Hbetween), releases_step, Hr.
    reflexivity.
Qed.

Lemma release_needs_resolved_listen_witness :
  releases (run [cleanup; listenResolves] mounted) = 0%nat /\
  releases (run [listenResolves; cleanup] mounted) = 1%nat.
Proof.
  split.
  - apply (proj1 (release_needs_resolved_listen
                    [cleanup] [listenResolves] [] eq_refl eq_refl eq_refl)).
  - apply (proj2 (release_needs_resolved_listen
                    [] [] [] eq_refl eq_refl eq_refl)).
Defined.

End SessionSyncLifecycleFacts.

(** ** Detecting a slash command in the prompt *)

Module DetectSlashCommandFacts.
Import JsString JsStringExtra SlashCommandMenuHook.

(** *** [trim] *)

Lemma trimStart_cases (s : string) :
  trimStart s = EmptyString \/
  exists c rest, trimStart s = String c rest /\ isWhiteSpace c = false.
Proof.
  induction s as [|c rest IH]; cbn [trimStart]; [now left|].
  destruct (isWhiteSpace c) eqn:E; [exact IH|].
  right. now exists c, rest.
Qed.

Lemma trimEnd_cons (c : ascii) (rest : string) :
  isWhiteSpace c = false -> trimEnd (String c rest) = String c (trimEnd rest).
Proof.
  intros H. cbn [trimEnd]. rewrite H. now destruct (trimEnd rest).
Qed.

Lemma trimEnd_idempotent (s : string) : trimEnd (trimEnd s) = trimEnd s.
Proof.
  induction s as [|c rest IH]; [reflexivity|].
  cbn [trimEnd]. destruct (trimEnd rest) as [|d kept] eqn:E.
  - destruct (isWhiteSpace c) eqn:W; [reflexivity|].
    cbn [trimEnd]. now rewrite W.
  - cbn [trimEnd] in *. now rewrite IH.
Qed.

Lemma trim_idempotent (s : string) : trim (trim s) = trim s.
Proof.
  unfold trim. destruct (trimStart_cases s) as [-> | (c & rest & -> & W)].
  - reflexivity.
  - rewrite (trimEnd_cons _ _ W). cbn [trimStart]. rewrite W.
    rewrite <- (trimEnd_cons _ _ W). apply trimEnd_idempotent.
Qed.

Lemma trimStart_app_white (ws s : string) :
  allUnits isWhiteSpace ws = true -> trimStart (ws ++ s) = trimStart s.
Proof.
  induction ws as [|c ws IH]; cbn [allUnits append trimStart]; intros H.
  - reflexivity.
  - apply andb_true_iff in H. destruct H as [-> Hws]. now apply IH.
Qed.

Lemma trimEnd_white (ws : string) :
  allUnits isWhiteSpace ws = true -> trimEnd ws = EmptyString.
Proof.
  induction ws as [|c ws IH]; cbn [allUnits trimEnd]; intros H.
  - reflexivity.
  - apply andb_true_iff in H. destruct H as [Hc Hws].
    now rewrite (IH Hws), Hc.
Qed.

Lemma trimEnd_app_white (s ws : string) :
  allUnits isWhiteSpace ws = true -> trimEnd (s ++ ws) = trimEnd s.
Proof.
  intros H. induction s as [|c s IH].
  - cbn [append]. now rewrite (trimEnd_white _ H).
  - cbn [append trimEnd]. now rewrite IH.
Qed.

Lemma trimStart_white (ws : string) :
  allUnits isWhiteSpace ws = true -> trimStart ws = EmptyString.
Proof.
  induction ws as [|c ws IH]; cbn [allUnits trimStart]; intros H.
  - reflexivity.
  - apply andb_true_iff in H. destruct H as [-> Hws]. now apply IH.
Qed.

Lemma allUnits_app (p : ascii -> bool) (s t : string) :
  allUnits p (s ++ t) = allUnits p s && allUnits p t.
Proof.
  induction s as [|c s IH]; cbn [append allUnits]; [reflexivity|].
  now rewrite IH, andb_assoc.
Qed.

Lemma trimStart_app (s ws : string) :
  allUnits isWhiteSpace ws = true ->
  trimStart (s ++ ws) =
  if allUnits isWhiteSpace s then EmptyString else trimStart s ++ ws.
Proof.
  intros H. induction s as [|c s IH]; cbn [append trimStart allUnits].
  - now apply trimStart_white.
  - destruct (isWhiteSpace c); [exact IH | reflexivity].
Qed.

Lemma trim_padding (before after s : string) :
  allUnits isWhiteSpace before = true ->
  allUnits isWhiteSpace after = true ->
  trim (before ++ s ++ after) = trim s.
Proof.
  intros Hb Ha. unfold trim.
  rewrite (trimStart_app_white _ _ Hb), (trimStart_app _ _ Ha).
  destruct (allUnits isWhiteSpace s) eqn:E.
  - now rewrite (trimStart_white _ E).
  - now apply trimEnd_app_white.
Qed.

(** *** [indexOf] *)

Lemma indexOfUnit_bound (c : ascii) (s : string) : (-1 <= indexOfUnit c s)%Z.
Proof.
  induction s as [|d rest IH]; cbn [indexOfUnit]; [lia|].
  destruct (Ascii.eqb d c); [lia|].
  destruct (Z.ltb_spec (indexOfUnit c rest) 0); lia.
Qed.

Lemma indexOfUnit_found (c : ascii) (s : string) :
  (0 <=? indexOfUnit c s)%Z = occurs c s.
Proof.
  induction s as [|d rest IH]; cbn [indexOfUnit occurs]; [reflexivity|].
  rewrite (Ascii.eqb_sym c d). destruct (Ascii.eqb d c); [reflexivity|].
  cbn [orb]. rewrite <- IH.
  pose proof (indexOfUnit_bound c rest).
  destruct (Z.ltb_spec (indexOfUnit c rest) 0), (Z.leb_spec 0 (indexOfUnit c rest));
    try lia; symmetry; apply Z.leb_le || apply Z.leb_gt; lia.
Qed.

Lemma indexOfUnit_after_slash (q : string) :
  (0 <? indexOfUnit space (String slash q))%Z = occurs space q.
Proof.
  cbn [indexOfUnit].
  change (Ascii.eqb slash space) with false. cbv iota.
  rewrite <- indexOfUnit_found.
  pose proof (indexOfUnit_bound space q).
  destruct (Z.ltb_spec (indexOfUnit space q) 0).
  - rewrite (proj2 (Z.leb_gt _ _)) by lia. reflexivity.
  - rewrite (proj2 (Z.leb_le _ _)) by lia. apply Z.ltb_lt. lia.
Qed.

Lemma detectSlashCommand_slash (text q : string) :
  trim text = String slash q ->
  detectSlashCommand text =
  if occurs space q then notACommand
  else {| isSlashCommand := true; query := q |}.
Proof.
  intros H. unfold detectSlashCommand. rewrite H.
  change (String.prefix "/" (String slash q)) with (String.prefix EmptyString q).
  replace (String.prefix EmptyString q) with true by now destruct q.
  cbn [negb]. rewrite indexOfUnit_after_slash.
  now destruct (occurs space q).
Qed.

Lemma detectSlashCommand_no_slash (text : string) :
  String.prefix "/" (trim text) = false ->
  detectSlashCommand text = notACommand.
Proof. intros H. unfold detectSlashCommand. now rewrite H. Qed.

Lemma prefix_slash (s : string) :
  String.prefix "/" s = true <-> exists q, s = String slash q.
Proof.
  rewrite CustomSlashCommandsFacts.prefix_spec. split; intros [q ->]; now exists q.
Qed.

(** X7. The prompt is a slash command exactly when, trimmed, it is a
    slash followed by a text without a space (other white space inside
    does not end the command); the query is then that text. Otherwise the
    query is empty. The query never holds a space. *)
Theorem detectSlashCommand_spec (text : string) :
  let d := detectSlashCommand text in
  (isSlashCommand d = true <->
   exists q, trim text = String slash q /\ occurs space q = false) /\
  (isSlashCommand d = true -> trim text = String slash (query d)) /\
  (isSlashCommand d = false -> query d = EmptyString) /\
  occurs space (query d) = false.
Proof.
  intros d. subst d.
  destruct (String.prefix "/" (trim text)) eqn:P.
  - apply prefix_slash in P. destruct P as [q Hq].
    rewrite (detectSlashCommand_slash _ _ Hq).
    destruct (occurs space q) eqn:E; cbn [isSlashCommand query notACommand].
    + split; [split|split; [|split]].
      * discriminate.
      * intros (q' & Hq' & E'). congruence.
      * discriminate.
      * reflexivity.
      * reflexivity.
    + split; [split|split; [|split]].
      * intros _. now exists q.
      * reflexivity.
      * intros _. exact Hq.
      * discriminate.
      * exact E.
  - rewrite (detectSlashCommand_no_slash _ P).
    cbn [isSlashCommand query notACommand].
    split; [split|split; [|split]].
    + discriminate.
    + intros (q & Hq & _). rewrite Hq in P. now destruct q.
    + discriminate.
    + reflexivity.
    + reflexivity.
Qed.

(** X8. White space around the prompt does not change what is detected. *)
Theorem detectSlashCommand_ignores_padding (before after text : string) :
  allUnits isWhiteSpace before = true ->
  allUnits isWhiteSpace after = true ->
  detectSlashCommand (before ++ text ++ after) = detectSlashCommand text.
Proof.
  intros Hb Ha. unfold detectSlashCommand.
  now rewrite (trim_padding _ _ _ Hb Ha).
Qed.

Lemma detectSlashCommand_ignores_padding_witness :
  detectSlashCommand ("  " ++ "/comp" ++ " ") = detectSlashCommand "/comp".
Proof.
  apply (detectSlashCommand_ignores_padding "  " " " "/comp"); reflexivity.
Defined.

End DetectSlashCommandFacts.

(** ** Keys of the menu, beyond the arrows in range *)

Module SlashCommandMenuKeyFacts.
Import SlashCommandMenu.

Lemma handleKeyDown_closed (r : Render) (key : string) (st : HookState) :
  isOpen r st = false -> runState (handleKeyDown r key) st = (false, st).
Proof. intros H. unfold handleKeyDown. cbn -[String.eqb]. now rewrite H. Qed.

(** The state a selection leaves. *)
Lemma handleKeyDown_select (r : Render) (key : string) (st : HookState) :
  isOpen r st = true ->
  key = "Enter" \/ key = "Tab" ->
  runState (handleKeyDown r key) st =
  match commandAt r (selectedIndex st) with
  | Some command =>
      (true,
       {| selectedIndex := selectedIndex st;
          isManuallyClose := true;
          calls :=
            (calls st ++
             preventDefault ::
             if hasOnCommandSelect r
             then [onCommandSelect ("/" ++ SlashCommand.name command)]
             else [])%list |})
  | None => (false, st)
  end.
Proof.
  intros H [-> | ->]; unfold handleKeyDown; cbn; rewrite H; cbn;
    (destruct (commandAt r (selectedIndex st)) as [command|];
     [|reflexivity]);
    unfold selectCommand; destruct (hasOnCommandSelect r);
    cbn; rewrite <- ?app_assoc; reflexivity.
Qed.

Lemma handleKeyDown_Escape (r : Render) (st : HookState) :
  isOpen r st = true ->
  runState (handleKeyDown r "Escape") st =
  (true, {| selectedIndex := selectedIndex st;
            isManuallyClose := true;
            calls := (calls st ++ [preventDefault])%list |}).
Proof. intros H. unfold handleKeyDown. cbn. now rewrite H. Qed.

Lemma handleKeyDown_other (r : Render) (key : string) (st : HookState) :
  key <> "ArrowUp" -> key <> "ArrowDown" -> key <> "Enter" ->
  key <> "Tab" -> key <> "Escape" ->
  runState (handleKeyDown r key) st = (false, st).
Proof.
  intros H1 H2 H3 H4 H5. unfold handleKeyDown. cbn -[String.eqb].
  apply String.eqb_neq in H1, H2, H3, H4, H5.
  rewrite H1, H2, H3, H4, H5. now destruct (isOpen r st).
Qed.

Lemma commandAt_None (r : Render) (i : Z) :
  commandAt r i = None <-> (i < 0 \/ lengthOf r <= i)%Z.
Proof.
  unfold commandAt, lengthOf. destruct (Z.ltb_spec i 0).
  - split; [now left | reflexivity].
  - rewrite nth_error_None. lia.
Qed.

Lemma isOpen_same_close (r : Render) (st st' : HookState) :
  isManuallyClose st' = isManuallyClose st -> isOpen r st' = isOpen r st.
Proof. unfold isOpen. now intros ->. Qed.

(** X9. A key the menu does not consume changes nothing and makes no
    call; a key it consumes has its default prevented, before any other
    call. This for every key, every render and every state. *)
Theorem consumed_keys_prevent_default (r : Render) (key : string)
  (st : HookState) :
  let result := runState (handleKeyDown r key) st in
  (fst result = false -> snd result = st) /\
  (fst result = true ->
   exists more, calls (snd result) = (calls st ++ preventDefault :: more)%list).
Proof.
  intros result. subst result.
  destruct (isOpen r st) eqn:Hopen;
    [|rewrite (handleKeyDown_closed _ _ _ Hopen); split;
      [reflexivity | discriminate]].
  destruct (String.eqb_spec key "ArrowUp") as [-> | H1].
  { rewrite (SlashCommandMenuFacts.handleKeyDown_ArrowUp _ _ Hopen).
    split; [discriminate | now exists []]. }
  destruct (String.eqb_spec key "ArrowDown") as [-> | H2].
  { rewrite (SlashCommandMenuFacts.handleKeyDown_ArrowDown _ _ Hopen).
    split; [discriminate | now exists []]. }
  destruct (String.eqb_spec key "Escape") as [-> | H5].
  { rewrite (handleKeyDown_Escape _ _ Hopen).
    split; [discriminate | now exists []]. }
  assert (Hselect : key = "Enter" \/ key = "Tab" ->
                    (fst (runState (handleKeyDown r key) st) = false ->
                     snd (runState (handleKeyDown r key) st) = st) /\
                    (fst (runState (handleKeyDown r key) st) = true ->
                     exists more,
                       calls (snd (runState (handleKeyDown r key) st)) =
                       (calls st ++ preventDefault :: more)%list)).
  { intros Hkey. rewrite (handleKeyDown_select _ _ _ Hopen Hkey).
    destruct (commandAt r (selectedIndex st)) as [command|].
    - split; [discriminate|]. intros _. cbn [snd calls]. eauto.
    - split; [reflexivity | discriminate]. }
  destruct (String.eqb_spec key "Enter") as [-> | H3]; [now apply Hselect; left|].
  destruct (String.eqb_spec key "Tab") as [-> | H4]; [now apply Hselect; right|].
  rewrite (handleKeyDown_other _ _ _ H1 H2 H3 H4 H5).
  split; [reflexivity | discriminate].
Qed.

(** X10. Enter and Tab do the same: on an open menu whose selected index
    points at a command, the key is consumed, the callback (when given)
    receives a slash followed by the name of that command, the index stays
    and the menu closes. *)
Theorem enter_or_tab_selects (r : Render) (key : string) (st : HookState)
  (command : SlashCommand.t) :
  isOpen r st = true ->
  key = "Enter" \/ key = "Tab" ->
  commandAt r (selectedIndex st) = Some command ->
  let result := runState (handleKeyDown r key) st in
  fst result = true /\
  calls (snd result) =
  (calls st ++
   preventDefault ::
   if hasOnCommandSelect r
   then [onCommandSelect ("/" ++ SlashCommand.name command)] else [])%list /\
  selectedIndex (snd result) = selectedIndex st /\
  isOpen r (snd result) = false.
Proof.
  intros Hopen Hkey Hat result. subst result.
  rewrite (handleKeyDown_select _ _ _ Hopen Hkey), Hat.
  cbn [fst snd calls selectedIndex]. repeat split.
  unfold isOpen. cbn [isManuallyClose negb]. now rewrite andb_false_r.
Qed.

Lemma enter_or_tab_selects_witness :
  calls (snd (runState (handleKeyDown MenuScenario.threeCommands "Tab")
                       (MenuScenario.selecting 1))) =
  [preventDefault; onCommandSelect "/stats"].
Proof.
  apply (proj1 (proj2 (enter_or_tab_selects
                         MenuScenario.threeCommands "Tab"
                         (MenuScenario.selecting 1)
                         (MenuScenario.builtIn "stats" "token statistics"
                            "context" true)
                         eq_refl (or_intror eq_refl) eq_refl))).
Defined.

(** X11. On an open menu whose selected index is outside the list (below
    0, or at or beyond its length), Enter and Tab are not consumed and
    nothing changes: no selection, no call, the menu stays open. *)
Theorem enter_outside_list_falls_through (r : Render) (key : string)
  (st : HookState) :
  isOpen r st = true ->
  key = "Enter" \/ key = "Tab" ->
  (selectedIndex st < 0 \/ lengthOf r <= selectedIndex st)%Z ->
  runState (handleKeyDown r key) st = (false, st).
Proof.
  intros Hopen Hkey Hout.
  rewrite (handleKeyDown_select _ _ _ Hopen Hkey).
  now rewrite (proj2 (commandAt_None r (selectedIndex st)) Hout).
Qed.

Lemma enter_outside_list_falls_through_witness :
  runState (handleKeyDown MenuScenario.threeCommands "Enter")
           (MenuScenario.selecting 3) =
  (false, MenuScenario.selecting 3).
Proof.
  apply (enter_outside_list_falls_through
           MenuScenario.threeCommands "Enter" (MenuScenario.selecting 3)
           eq_refl (or_introl eq_refl)).
  right. vm_compute. discriminate.
Defined.

(** X12. Escape is consumed and closes the menu without moving the
    selection; from then on no key is consumed, whatever the list. The
    effect of a query change opens it again, on the first entry, for every
    render that has commands to show; the effect of a prompt change opens
    it again only when the prompt is blank. *)
Theorem escape_closes_until_query_changes (r : Render) (st : HookState) :
  isOpen r st = true ->
  let closed := snd (runState (handleKeyDown r "Escape") st) in
  fst (runState (handleKeyDown r "Escape") st) = true /\
  selectedIndex closed = selectedIndex st /\
  (forall r' key, runState (handleKeyDown r' key) closed = (false, closed)) /\
  (forall r',
      isOpen r' (execState SlashCommandMenuHook.onQueryChange closed) =
      isSlashCommand r' && (0 <? lengthOf r')%Z) /\
  selectedIndex (execState SlashCommandMenuHook.onQueryChange closed) = 0%Z /\
  (forall prompt r',
      isOpen r' (execState (SlashCommandMenuHook.onPromptChange prompt) closed) =
      negb (JsString.truthy (JsStringExtra.trim prompt)) &&
      (isSlashCommand r' && (0 <? lengthOf r')%Z)).
Proof.
  intros Hopen closed. subst closed.
  rewrite (handleKeyDown_Escape _ _ Hopen). cbn [fst snd selectedIndex].
  split; [reflexivity|]. split; [reflexivity|]. split; [|split; [|split]].
  - intros r' key. apply handleKeyDown_closed.
    unfold isOpen. cbn [isManuallyClose negb]. now rewrite andb_false_r.
  - intros r'. unfold isOpen. cbn. now rewrite andb_true_r.
  - reflexivity.
  - intros prompt r'. unfold SlashCommandMenuHook.onPromptChange, isOpen.
    destruct (JsString.truthy (JsStringExtra.trim prompt)); cbn.
    + now rewrite andb_false_r.
    + now rewrite andb_true_r.
Qed.

Lemma escape_closes_until_query_changes_witness :
  runState (handleKeyDown MenuScenario.threeCommands "ArrowDown")
           (snd (runState (handleKeyDown MenuScenario.threeCommands "Escape")
                          (MenuScenario.selecting 1))) =
  (false,
   snd (runState (handleKeyDown MenuScenario.threeCommands "Escape")
                 (MenuScenario.selecting 1))).
Proof.
  destruct (escape_closes_until_query_changes
              MenuScenario.threeCommands (MenuScenario.selecting 1) eq_refl)
    as (_ & _ & Hkeys & _).
  exact (Hkeys MenuScenario.threeCommands "ArrowDown").
Defined.

(** *** Arrows *)

Lemma press_S (r : Render) (key : string) (n : nat) (st : HookState) :
  execState (SlashCommandMenuHook.press r key (S n)) st =
  execState (SlashCommandMenuHook.press r key n)
            (snd (runState (handleKeyDown r key) st)).
Proof.
  unfold execState. cbn [SlashCommandMenuHook.press].
  cbn [bind Monad_state runState].
  now destruct (runState (handleKeyDown r key) st).
Qed.

Lemma arrowDown_mod (r : Render) (prev : Z) :
  (0 <= prev < lengthOf r)%Z ->
  arrowDown r prev = ((prev + 1) mod lengthOf r)%Z.
Proof.
  intros H. unfold arrowDown.
  destruct (Z.ltb_spec prev (lengthOf r - 1)).
  - symmetry. apply Z.mod_small. lia.
  - replace (prev + 1)%Z with (lengthOf r) by lia.
    symmetry. apply Z_mod_same_full.
Qed.

Lemma arrowUp_mod (r : Render) (prev : Z) :
  (0 <= prev < lengthOf r)%Z ->
  arrowUp r prev = ((prev - 1) mod lengthOf r)%Z.
Proof.
  intros H. unfold arrowUp.
  destruct (Z.ltb_spec 0 prev).
  - symmetry. apply Z.mod_small. lia.
  - replace (prev - 1)%Z with (-1 * lengthOf r + (lengthOf r - 1))%Z by lia.
    rewrite Z.add_comm, Z_mod_plus_full. symmetry. apply Z.mod_small. lia.
Qed.

(** X13. On an open menu with the index in range, [k] presses of
    ArrowDown move the selection [k] entries forward around the list, and
    [k] presses of ArrowUp [k] entries backward; as many presses as there
    are commands, in either direction, bring it back where it was. *)
Theorem arrow_presses_rotate (r : Render) (st : HookState) (k : nat) :
  isOpen r st = true ->
  (0 <= selectedIndex st < lengthOf r)%Z ->
  selectedIndex (execState (SlashCommandMenuHook.press r "ArrowDown" k) st) =
  ((selectedIndex st + Z.of_nat k) mod lengthOf r)%Z /\
  selectedIndex (execState (SlashCommandMenuHook.press r "ArrowUp" k) st) =
  ((selectedIndex st - Z.of_nat k) mod lengthOf r)%Z /\
  selectedIndex
    (execState (SlashCommandMenuHook.press r "ArrowDown"
                  (length (filteredCommands r))) st) = selectedIndex st /\
  selectedIndex
    (execState (SlashCommandMenuHook.press r "ArrowUp"
                  (length (filteredCommands r))) st) = selectedIndex st.
Proof.
  intros Hopen Hrange.
  assert (Hdown : forall n st',
             isOpen r st' = true ->
             (0 <= selectedIndex st' < lengthOf r)%Z ->
             selectedIndex
               (execState (SlashCommandMenuHook.press r "ArrowDown" n) st') =
             ((selectedIndex st' + Z.of_nat n) mod lengthOf r)%Z).
  { induction n as [|n IH]; intros st' Ho Hr.
    - cbn. rewrite Z.add_0_r. symmetry. now apply Z.mod_small.
    - rewrite press_S, (SlashCommandMenuFacts.handleKeyDown_ArrowDown _ _ Ho).
      cbn [snd]. rewrite IH; cbn [selectedIndex].
      + rewrite (arrowDown_mod _ _ Hr), Zplus_mod_idemp_l. f_equal. lia.
      + now rewrite (isOpen_same_close r st') by reflexivity.
      + rewrite (arrowDown_mod _ _ Hr). apply Z.mod_pos_bound. lia. }
  assert (Hup : forall n st',
             isOpen r st' = true ->
             (0 <= selectedIndex st' < lengthOf r)%Z ->
             selectedIndex
               (execState (SlashCommandMenuHook.press r "ArrowUp" n) st') =
             ((selectedIndex st' - Z.of_nat n) mod lengthOf r)%Z).
  { induction n as [|n IH]; intros st' Ho Hr.
    - cbn. rewrite Z.sub_0_r. symmetry. now apply Z.mod_small.
    - rewrite press_S, (SlashCommandMenuFacts.handleKeyDown_ArrowUp _ _ Ho).
      cbn [snd]. rewrite IH; cbn [selectedIndex].
      + rewrite (arrowUp_mod _ _ Hr), Zminus_mod_idemp_l. f_equal. lia.
      + now rewrite (isOpen_same_close r st') by reflexivity.
      + rewrite (arrowUp_mod _ _ Hr). apply Z.mod_pos_bound. lia. }
  split; [now apply Hdown|]. split; [now apply Hup|]. split.
  - rewrite (Hdown _ _ Hopen Hrange).
    change (Z.of_nat (length (filteredCommands r))) with (lengthOf r).
    replace (selectedIndex st + lengthOf r)%Z
      with (selectedIndex st + 1 * lengthOf r)%Z by lia.
    rewrite Z_mod_plus_full. now apply Z.mod_small.
  - rewrite (Hup _ _ Hopen Hrange).
    change (Z.of_nat (length (filteredCommands r))) with (lengthOf r).
    replace (selectedIndex st - lengthOf r)%Z
      with (selectedIndex st + -1 * lengthOf r)%Z by lia.
    rewrite Z_mod_plus_full. now apply Z.mod_small.
Qed.

Lemma arrow_presses_rotate_witness :
  selectedIndex
    (execState (SlashCommandMenuHook.press MenuScenario.threeCommands
                  "ArrowDown" 5) (MenuScenario.selecting 2)) = 1%Z.
Proof.
  assert (Hrange : (0 <= 2 < 3)%Z) by lia.
  exact (proj1 (arrow_presses_rotate MenuScenario.threeCommands
                  (MenuScenario.selecting 2) 5 eq_refl Hrange)).
Defined.

(** X14. An index left outside the list (the list can shrink under it:
    the index is only reset when the query changes). For an integer index
    that a number holds exactly (between -(2^53 - 1) and 2^53 - 1, where
    adding and subtracting 1 are exact), on an open menu: ArrowDown lands
    in range from every index from -1 up, on 0 from the last entry or
    beyond; ArrowUp lands in range from every index up to the length, and
    from beyond it only steps down by one. *)
Theorem arrows_from_outside_list (r : Render) (st : HookState) :
  isOpen r st = true ->
  (-9007199254740991 <= selectedIndex st <= 9007199254740991)%Z ->
  let prev := selectedIndex st in
  let down := selectedIndex (snd (runState (handleKeyDown r "ArrowDown") st)) in
  let up := selectedIndex (snd (runState (handleKeyDown r "ArrowUp") st)) in
  ((0 <= down <= lengthOf r - 1)%Z <-> (-1 <= prev)%Z) /\
  ((lengthOf r - 1 <= prev)%Z -> down = 0%Z) /\
  ((0 <= up <= lengthOf r - 1)%Z <-> (prev <= lengthOf r)%Z) /\
  ((lengthOf r < prev)%Z -> up = (prev - 1)%Z).
Proof.
  intros Hopen Hsafe prev down up. subst prev down up.
  rewrite (SlashCommandMenuFacts.handleKeyDown_ArrowDown _ _ Hopen),
    (SlashCommandMenuFacts.handleKeyDown_ArrowUp _ _ Hopen).
  cbn [snd selectedIndex].
  pose proof (SlashCommandMenuFacts.isOpen_nonempty _ _ Hopen) as Hlen.
  unfold arrowDown, arrowUp.
  destruct (Z.ltb_spec (selectedIndex st) (lengthOf r - 1)),
    (Z.ltb_spec 0 (selectedIndex st)); lia.
Qed.

Lemma arrows_from_outside_list_witness :
  selectedIndex
    (snd (runState (handleKeyDown MenuScenario.threeCommands "ArrowDown")
                   (MenuScenario.selecting 7))) = 0%Z /\
  selectedIndex
    (snd (runState (handleKeyDown MenuScenario.threeCommands "ArrowUp")
                   (MenuScenario.selecting 7))) = 6%Z.
Proof.
  assert (Hsafe : (-9007199254740991 <= 7 <= 9007199254740991)%Z) by lia.
  destruct (arrows_from_outside_list
              MenuScenario.threeCommands (MenuScenario.selecting 7) eq_refl
              Hsafe)
    as (_ & Hdown & _ & Hup).
  split; [apply Hdown | apply Hup]; vm_compute; congruence.
Defined.

End SlashCommandMenuKeyFacts.

(** ** The hook as a whole: from the prompt to the keys *)

Module SlashCommandMenuHookFacts.
Import JsString JsStringExtra.

Lemma trimEnd_no_white (s : string) :
  allUnits (fun c => negb (isWhiteSpace c)) s = true -> trimEnd s = s.
Proof.
  induction s as [|c rest IH]; cbn [allUnits]; intros H; [reflexivity|].
  apply andb_true_iff in H. destruct H as [Hc Hrest].
  apply negb_true_iff in Hc.
  now rewrite (DetectSlashCommandFacts.trimEnd_cons _ _ Hc), IH.
Qed.

Lemma no_white_no_space (s : string) :
  allUnits (fun c => negb (isWhiteSpace c)) s = true -> occurs space s = false.
Proof.
  induction s as [|c rest IH]; cbn [allUnits occurs]; intros H; [reflexivity|].
  apply andb_true_iff in H. destruct H as [Hc Hrest].
  rewrite (IH Hrest), orb_false_r.
  destruct (Ascii.eqb_spec space c) as [<- | Hne]; [discriminate Hc | reflexivity].
Qed.

(** X15. Read-back of a selection: the string the callback receives, a
    slash followed by the name of the command, is detected as a slash
    command whose query is that name, provided the name holds no white
    space. *)
Theorem selection_reads_back (name : string) :
  allUnits (fun c => negb (isWhiteSpace c)) name = true ->
  SlashCommandMenuHook.detectSlashCommand ("/" ++ name) =
  {| SlashCommandMenuHook.isSlashCommand := true;
     SlashCommandMenuHook.query := name |}.
Proof.
  intros H.
  assert (Htrim : trim ("/" ++ name) = String slash name).
  { unfold trim. cbn [append trimStart].
    change (isWhiteSpace "/") with false. cbv iota.
    rewrite DetectSlashCommandFacts.trimEnd_cons by reflexivity.
    now rewrite (trimEnd_no_white _ H). }
  rewrite (DetectSlashCommandFacts.detectSlashCommand_slash _ _ Htrim).
  now rewrite (no_white_no_space _ H).
Qed.

Lemma selection_reads_back_witness :
  SlashCommandMenuHook.detectSlashCommand ("/" ++ "compact") =
  {| SlashCommandMenuHook.isSlashCommand := true;
     SlashCommandMenuHook.query := "compact" |}.
Proof. apply (selection_reads_back "compact"). reflexivity. Defined.

Section Catalog.

Variable BUILT_IN_SLASH_COMMANDS : list SlashCommand.t.
Variable filterSlashCommands :
  list SlashCommand.t -> string -> bool -> list SlashCommand.t.

(** X16. Whatever the catalog and the filter: when the hook is disabled,
    or the trimmed prompt does not start with a slash, or it holds a
    space, or the menu was closed by hand, no key is consumed and nothing
    changes. *)
Theorem no_command_no_menu (o : SlashCommandMenuHook.Options) (key : string)
  (st : SlashCommandMenu.HookState) :
  SlashCommandMenuHook.disabled o = true \/
  String.prefix "/" (trim (SlashCommandMenuHook.prompt o)) = false \/
  occurs space (trim (SlashCommandMenuHook.prompt o)) = true \/
  SlashCommandMenu.isManuallyClose st = true ->
  runState
    (SlashCommandMenu.handleKeyDown
       (SlashCommandMenuHook.render BUILT_IN_SLASH_COMMANDS filterSlashCommands o)
       key) st =
  (false, st).
Proof.
  intros H. apply SlashCommandMenuKeyFacts.handleKeyDown_closed.
  unfold SlashCommandMenu.isOpen, SlashCommandMenuHook.render.
  cbn [SlashCommandMenu.isSlashCommand].
  destruct H as [H | [H | [H | H]]].
  - unfold SlashCommandMenuHook.detection. now rewrite H.
  - unfold SlashCommandMenuHook.detection.
    rewrite (DetectSlashCommandFacts.detectSlashCommand_no_slash _ H).
    now destruct (SlashCommandMenuHook.disabled o).
  - unfold SlashCommandMenuHook.detection.
    destruct (SlashCommandMenuHook.disabled o); [reflexivity|].
    destruct (String.prefix "/" (trim (SlashCommandMenuHook.prompt o))) eqn:P.
    + apply DetectSlashCommandFacts.prefix_slash in P. destruct P as [q Hq].
      rewrite (DetectSlashCommandFacts.detectSlashCommand_slash _ _ Hq).
      rewrite Hq in H. cbn [occurs] in H.
      change (Ascii.eqb space slash) with false in H. cbn [orb] in H.
      now rewrite H.
    + now rewrite (DetectSlashCommandFacts.detectSlashCommand_no_slash _ P).
  - rewrite H. cbn [negb]. now rewrite andb_false_r.
Qed.

End Catalog.

Lemma no_command_no_menu_witness :
  runState
    (SlashCommandMenu.handleKeyDown
       (SlashCommandMenuHook.render [] (fun commands _ _ => commands)
          {| SlashCommandMenuHook.prompt := "/compact now";
             SlashCommandMenuHook.hasOnCommandSelect := true;
             SlashCommandMenuHook.customCommands := [];
             SlashCommandMenuHook.disabled := false;
             SlashCommandMenuHook.engine := CustomSlashCommands.gemini |})
       "Enter") (MenuScenario.selecting 0) =
  (false, MenuScenario.selecting 0).
Proof.
  apply (no_command_no_menu [] (fun commands _ _ => commands)).
  right. right. left. reflexivity.
Defined.

End SlashCommandMenuHookFacts.

(** ** Loading the custom commands: the other paths *)

Module CustomSlashCommandsMoreFacts.
Import JsString CustomSlashCommands.

(** The request that reaches the backend, when one is made. *)
Lemma loadCommands_asks (invoke : Backend) (projectPath : option string)
  (engine : ExecutionEngine) (st : HookState) :
  engine <> codex ->
  execState (loadCommands invoke projectPath true engine) st =
  match invoke (getBackendCommand engine) (orElse projectPath None) with
  | resolves commands =>
      {| rawCommands := commands; isLoading := false; error := None;
         console := console st |}
  | rejects err =>
      if isUnavailable (errorMessageOf err) then
        {| rawCommands := []; isLoading := false; error := None;
           console :=
             (console st ++
              [console_debug
                 ("Custom slash commands not available for engine: "
                    ++ engineName engine)])%list |}
      else
        {| rawCommands := []; isLoading := false;
           error := Some (errorMessageOf err);
           console :=
             (console st ++
              [console_error "Failed to load custom slash commands:"
                             (errorMessageOf err)])%list |}
  end.
Proof.
  intros Hengine. unfold loadCommands.
  destruct engine; [| |congruence]; cbn [negb];
    cbv beta iota zeta; unfold execState; cbn [runState bind ret Monad_state
      setIsLoading setError setRawCommands log get put MonadState_state
      fst snd];
    (destruct (invoke _ _) as [commands | err]; [reflexivity|]);
    destruct (isUnavailable (errorMessageOf err)); reflexivity.
Qed.

Lemma engine_is_codex (engine : ExecutionEngine) :
  engine = codex \/ engine <> codex.
Proof. destruct engine; [right | right | left]; congruence. Qed.

(** X17. A hook that is disabled, or set on the codex engine, empties the
    command list and does nothing else: the backend is not asked (the
    outcome is the same for every backend), nothing is logged, and the
    loading flag and the error of an earlier load stay as they were. *)
Theorem skipped_load_only_empties (invoke : Backend)
  (projectPath : option string) (enabled : bool) (engine : ExecutionEngine)
  (st : HookState) :
  enabled = false \/ engine = codex ->
  execState (loadCommands invoke projectPath enabled engine) st =
  {| rawCommands := []; isLoading := isLoading st; error := error st;
     console := console st |}.
Proof.
  intros [-> | ->]; [reflexivity|]. now destruct enabled.
Qed.

Lemma skipped_load_only_empties_witness :
  error
    (execState
       (loadCommands (fun _ _ => rejects (aValue "backend down")) None true codex)
       {| rawCommands := []; isLoading := false; error := Some "stale";
          console := [] |}) = Some "stale".
Proof.
  rewrite (skipped_load_only_empties
             (fun _ _ => rejects (aValue "backend down")) None true codex
             {| rawCommands := []; isLoading := false; error := Some "stale";
                console := [] |} (or_intror eq_refl)).
  reflexivity.
Defined.

(** X18. A load whose request succeeds replaces the command list by the
    answer, clears the error of an earlier load, ends loading and logs
    nothing. *)
Theorem successful_load_replaces_commands (invoke : Backend)
  (projectPath : option string) (engine : ExecutionEngine)
  (commands : list CustomSlashCommandResponse) (st : HookState) :
  engine <> codex ->
  invoke (getBackendCommand engine) (orElse projectPath None) =
  resolves commands ->
  execState (loadCommands invoke projectPath true engine) st =
  {| rawCommands := commands; isLoading := false; error := None;
     console := console st |}.
Proof.
  intros Hengine Hinvoke. now rewrite (loadCommands_asks _ _ _ _ Hengine), Hinvoke.
Qed.

Lemma successful_load_replaces_commands_witness :
  execState
    (loadCommands (fun _ _ => resolves []) (Some "/repo/app") true claude)
    {| rawCommands := []; isLoading := true; error := Some "stale";
       console := [] |} =
  {| rawCommands := []; isLoading := false; error := None; console := [] |}.
Proof.
  apply (successful_load_replaces_commands
           (fun _ _ => resolves []) (Some "/repo/app") claude []).
  - discriminate.
  - reflexivity.
Defined.

(** X19. The outcome of a load depends on the backend through the answer
    to one request only: the command is
    [list_gemini_custom_slash_commands] for gemini and
    [list_custom_slash_commands] for claude, and the project path is sent
    as it is when it is set and not empty, as [null] otherwise. *)
Theorem load_asks_one_request (invoke invoke' : Backend)
  (projectPath : option string) (enabled : bool) (engine : ExecutionEngine)
  (st : HookState) :
  let command :=
    match engine with
    | gemini => "list_gemini_custom_slash_commands"
    | _ => "list_custom_slash_commands"
    end in
  let sent :=
    match projectPath with
    | Some (String c rest) => Some (String c rest)
    | _ => None
    end in
  invoke command sent = invoke' command sent ->
  execState (loadCommands invoke projectPath enabled engine) st =
  execState (loadCommands invoke' projectPath enabled engine) st.
Proof.
  intros command sent Hsame.
  destruct enabled; [|reflexivity].
  destruct (engine_is_codex engine) as [-> | Hengine]; [reflexivity|].
  rewrite !(loadCommands_asks _ _ _ _ Hengine).
  assert (Hsent : orElse projectPath None = sent).
  { subst sent. now destruct projectPath as [[|c rest]|]. }
  assert (Hcommand : getBackendCommand engine = command).
  { subst command. now destruct engine. }
  now rewrite Hsent, Hcommand, Hsame.
Qed.

Lemma load_asks_one_request_witness :
  let invoke : Backend :=
    fun command _ =>
      if String.eqb command "list_custom_slash_commands" then resolves []
      else rejects (aValue "no such command") in
  let invoke' : Backend := fun _ _ => resolves [] in
  let st :=
    {| rawCommands := []; isLoading := false; error := None; console := [] |} in
  execState (loadCommands invoke (Some EmptyString) true claude) st =
  execState (loadCommands invoke' (Some EmptyString) true claude) st.
Proof.
  intros invoke invoke' st.
  apply (load_asks_one_request invoke invoke' (Some EmptyString) true claude st).
  reflexivity.
Defined.

(** X20. A load never keeps or merges the list it finds: the list it
    leaves is the answer of the backend or is empty, whatever the state
    before; and the loading flag is down afterwards unless the load was
    skipped while it was up. *)
Theorem load_leaves_answer_or_nothing (invoke : Backend)
  (projectPath : option string) (enabled : bool) (engine : ExecutionEngine)
  (st : HookState) :
  let after := execState (loadCommands invoke projectPath enabled engine) st in
  (rawCommands after = [] \/
   invoke (getBackendCommand engine) (orElse projectPath None) =
   resolves (rawCommands after)) /\
  (forall st',
      rawCommands
        (execState (loadCommands invoke projectPath enabled engine) st') =
      rawCommands after) /\
  isLoading after =
  isLoading st && (negb enabled ||
                   match engine with codex => true | _ => false end).
Proof.
  intros after. subst after.
  destruct enabled.
  - destruct (engine_is_codex engine) as [-> | Hengine].
    + cbn. repeat split; [now left | now rewrite andb_true_r].
    + split; [|split].
      * rewrite (loadCommands_asks _ _ _ _ Hengine).
        destruct (invoke _ _) as [commands | err]; [now right|].
        destruct (isUnavailable (errorMessageOf err)); now left.
      * intros st'. rewrite !(loadCommands_asks _ _ _ _ Hengine).
        destruct (invoke _ _) as [commands | err]; [reflexivity|].
        now destruct (isUnavailable (errorMessageOf err)).
      * rewrite (loadCommands_asks _ _ _ _ Hengine).
        assert (Hflag : match engine with codex => true | _ => false end
                        = false) by (destruct engine; congruence).
        rewrite Hflag. cbn [negb orb]. rewrite andb_false_r.
        destruct (invoke _ _) as [commands | err]; [reflexivity|].
        now destruct (isUnavailable (errorMessageOf err)).
  - cbn. repeat split; [now left | now rewrite andb_true_r].
Qed.

Lemma toSlashCommand_description (cmd : CustomSlashCommandResponse) :
  SlashCommand.description (toSlashCommand cmd) <> EmptyString.
Proof.
  cbn [toSlashCommand SlashCommand.description].
  destruct (description cmd) as [[|c d]|]; cbn [truthy]; discriminate.
Qed.

(** X21. The commands handed to the menu follow the loaded ones one for
    one, in order and under the same names; each has category [custom],
    supports the non-interactive mode, has source [project] exactly when
    its scope is ["project"] and [user] otherwise, never has an empty
    description (a missing or empty one is replaced by a text made from the
    name) and never an empty argument hint. *)
Theorem customCommands_follow_loaded (st : HookState) :
  Forall2
    (fun cmd c =>
       SlashCommand.name c = name cmd /\
       SlashCommand.category c = "custom" /\
       SlashCommand.supportsNonInteractive c = true /\
       SlashCommand.source c =
       (if String.eqb (scope cmd) "project" then "project" else "user") /\
       SlashCommand.description c <> EmptyString /\
       (forall d, description cmd = Some d -> d <> EmptyString ->
                  SlashCommand.description c = d) /\
       (truthyOpt (description cmd) = false ->
        SlashCommand.description c = "Custom command: " ++ name cmd) /\
       SlashCommand.argHint c <> Some EmptyString /\
       (truthyOpt (argHint cmd) = true -> SlashCommand.argHint c = argHint cmd))
    (rawCommands st) (customCommands st).
Proof.
  unfold customCommands.
  induction (rawCommands st) as [|cmd rest IH]; cbn [map]; constructor;
    [|exact IH].
  split; [reflexivity|]. split; [reflexivity|]. split; [reflexivity|].
  split; [reflexivity|]. split; [apply toSlashCommand_description|].
  cbn [toSlashCommand SlashCommand.description SlashCommand.argHint].
  split; [|split; [|split]].
  - intros d -> Hd. destruct d; [congruence | reflexivity].
  - destruct (description cmd) as [[|c d]|]; cbn [truthyOpt truthy];
      congruence.
  - unfold orElse. destruct (argHint cmd) as [[|c h]|]; cbn [truthyOpt truthy];
      discriminate.
  - unfold orElse. now intros ->.
Qed.

End CustomSlashCommandsMoreFacts.

(** ** The theme at run time *)

Module ThemeProviderFacts.
Import JsString ThemeProvider.

Lemma getItem_setItem_same (key value : string) (store : list (string * string)) :
  getItem key (setItem key value store) = Some value.
Proof.
  induction store as [|[k v] rest IH]; cbn [setItem getItem].
  - now rewrite String.eqb_refl.
  - destruct (String.eqb k key) eqn:E; cbn [getItem]; rewrite E;
      [reflexivity | exact IH].
Qed.

Lemma getItem_setItem_other (key other value : string)
  (store : list (string * string)) :
  other <> key ->
  getItem other (setItem key value store) = getItem other store.
Proof.
  intros Hne. induction store as [|[k v] rest IH]; cbn [setItem getItem].
  - destruct (String.eqb_spec key other); [congruence | reflexivity].
  - destruct (String.eqb_spec k key) as [-> | Hk]; cbn [getItem].
    + destruct (String.eqb_spec key other); [congruence | reflexivity].
    + now rewrite IH.
Qed.

Lemma hasToken_In (token : string) (tokens : list string) :
  hasToken token tokens = true <-> In token tokens.
Proof.
  unfold hasToken. rewrite existsb_exists. split.
  - intros (x & Hx & E). apply String.eqb_eq in E. now subst.
  - intros H. exists token. now rewrite String.eqb_refl.
Qed.

Lemma In_classListRemove (c : string) (tokens classes : list string) :
  In c (classListRemove tokens classes) <-> In c classes /\ ~ In c tokens.
Proof.
  unfold classListRemove. rewrite filter_In, negb_true_iff.
  split; intros [Hin Hno]; (split; [exact Hin|]).
  - intros H. apply hasToken_In in H. congruence.
  - destruct (hasToken c tokens) eqn:E; [|reflexivity].
    apply hasToken_In in E. contradiction.
Qed.

Lemma In_classListAdd (c token : string) (classes : list string) :
  In c (classListAdd token classes) <-> c = token \/ In c classes.
Proof.
  unfold classListAdd. destruct (hasToken token classes) eqn:E.
  - apply hasToken_In in E. split; [now right | now intros [-> | H]].
  - rewrite in_app_iff. cbn [In]. intuition congruence.
Qed.

Lemma validToken_truthy (token : string) :
  validToken token = true -> truthy token = true.
Proof. unfold validToken. intros H. now apply andb_true_iff in H. Qed.


(** X23. The theme effect, for a theme of the type: the document element
    ends with the class of the theme and without the class of the other
    theme, its other classes untouched; [data-color-mode] is the theme;
    the theme is stored under [theme], the other keys of the storage
    untouched; the title bar is asked to be dark exactly for the dark
    theme; and a rejected title-bar call adds one warning and changes
    nothing else. *)
Theorem applyTheme_sets_page (t : ThemeContext.Theme) (titlebar : option string)
  (w : World) :
  theme w = themeName t ->
  exists w',
    applyTheme titlebar w = Some w' /\
    theme w' = themeName t /\
    In (themeName t) (classList w') /\
    ~ In (themeName (ThemeContext.toggle t)) (classList w') /\
    (forall c, c <> "light" -> c <> "dark" ->
               (In c (classList w') <-> In c (classList w))) /\
    dataColorMode w' = Some (themeName t) /\
    getItem "theme" (localStorage w') = Some (themeName t) /\
    (forall key, key <> "theme" ->
                 getItem key (localStorage w') = getItem key (localStorage w)) /\
    calls w' =
    (calls w ++
     [set_titlebar_theme
        match t with ThemeContext.dark => true | ThemeContext.light => false end])%list /\
    warnings w' =
    (warnings w ++
     match titlebar with
     | Some err => [console_warn "Failed to update titlebar theme:" err]
     | None => []
     end)%list.
Proof.
  intros Htheme. unfold applyTheme. rewrite Htheme.
  assert (Hvalid : validToken (themeName t) = true) by now destruct t.
  rewrite Hvalid. eexists. split; [reflexivity|].
  cbn [theme classList dataColorMode localStorage calls warnings].
  split; [reflexivity|]. split; [apply In_classListAdd; now left|].
  split.
  { rewrite In_classListAdd, In_classListRemove.
    intros [H | [_ H]]; [now destruct t|].
    apply H. destruct t; cbn; auto. }
  split.
  { intros c Hl Hd. rewrite In_classListAdd, In_classListRemove. split.
    - intros [-> | [H _]]; [now destruct t | exact H].
    - intros H. right. split; [exact H|].
      cbn [In]. intuition congruence. }
  split; [reflexivity|]. split; [apply getItem_setItem_same|].
  split; [intros key Hkey; now apply getItem_setItem_other|].
  split; [now destruct t | reflexivity].
Qed.

Lemma applyTheme_sets_page_witness :
  exists w',
    applyTheme (Some "no window")
      {| theme := "dark"; localStorage := [("lang", "en")];
         classList := ["app"; "light"]; dataColorMode := Some "light";
         calls := []; warnings := [] |} = Some w' /\
    classList w' = ["app"; "dark"] /\
    calls w' = [set_titlebar_theme true].
Proof.
  destruct (applyTheme_sets_page ThemeContext.dark (Some "no window")
              {| theme := "dark"; localStorage := [("lang", "en")];
                 classList := ["app"; "light"]; dataColorMode := Some "light";
                 calls := []; warnings := [] |} eq_refl)
    as (w' & Happly & _ & _ & _ & _ & _ & _ & _ & Hcalls & _).
  exists w'. split; [exact Happly|].
  split; [|exact Hcalls].
  injection Happly as <-. reflexivity.
Defined.

Lemma applyTheme_valid (titlebar : option string) (w : World) :
  validToken (theme w) = true ->
  exists w',
    applyTheme titlebar w = Some w' /\
    theme w' = theme w /\
    getItem "theme" (localStorage w') = Some (theme w) /\
    dataColorMode w' = Some (theme w) /\
    In (theme w) (classList w').
Proof.
  intros Hvalid. unfold applyTheme. rewrite Hvalid.
  eexists. split; [reflexivity|].
  cbn [theme localStorage dataColorMode classList].
  split; [reflexivity|]. split; [apply getItem_setItem_same|].
  split; [reflexivity|]. apply In_classListAdd. now left.
Qed.

(** X24. Mounting the provider on a storage that holds a theme (any text
    a class list accepts, checked against nothing else) ends with that
    theme in the cell, on the document element and back in the storage:
    the write of ['light'] that the first run of the theme effect makes
    does not lose it. So the theme one session stores is the theme the
    next one starts with. *)
Theorem mount_restores_saved_theme (titlebar1 titlebar2 : option string)
  (page : World) (saved : string) :
  getItem "theme" (localStorage page) = Some saved ->
  validToken saved = true ->
  exists w',
    mount titlebar1 titlebar2 page = Some w' /\
    theme w' = saved /\
    getItem "theme" (localStorage w') = Some saved /\
    dataColorMode w' = Some saved /\
    In saved (classList w').
Proof.
  intros Hsaved Hvalid. unfold mount.
  assert (Hasked : theme (loadSavedTheme (setTheme "light" page)) = saved).
  { unfold loadSavedTheme. cbn [setTheme localStorage].
    now rewrite Hsaved, (validToken_truthy _ Hvalid). }
  rewrite Hasked.
  destruct (applyTheme_valid titlebar1 (setTheme "light" page) eq_refl)
    as (applied & Happly & Htheme & Hstore & Hmode & Hclass).
  rewrite Happly.
  destruct (String.eqb_spec saved "light") as [-> | Hne].
  - exists applied. now repeat split.
  - destruct (applyTheme_valid titlebar2 (setTheme saved applied) Hvalid)
      as (w' & Happly' & Htheme' & Hstore' & Hmode' & Hclass').
    exists w'. now repeat split.
Qed.

Lemma mount_restores_saved_theme_witness :
  exists w',
    mount None None
      {| theme := "light"; localStorage := [("theme", "dark")];
         classList := []; dataColorMode := None; calls := [];
         warnings := [] |} = Some w' /\
    theme w' = "dark".
Proof.
  destruct (mount_restores_saved_theme None None
              {| theme := "light"; localStorage := [("theme", "dark")];
                 classList := []; dataColorMode := None; calls := [];
                 warnings := [] |} "dark" eq_refl eq_refl)
    as (w' & Hmount & Htheme & _).
  exists w'. split; [exact Hmount | exact Htheme].
Defined.

(** X25. Mounting the provider on a storage without a theme, or with an
    empty one, keeps the light theme, stores it, and asks once for a light
    title bar. *)
Theorem mount_defaults_to_light (titlebar1 titlebar2 : option string)
  (page : World) :
  getItem "theme" (localStorage page) = None \/
  getItem "theme" (localStorage page) = Some EmptyString ->
  exists w',
    mount titlebar1 titlebar2 page = Some w' /\
    theme w' = "light" /\
    getItem "theme" (localStorage w') = Some "light" /\
    calls w' = (calls page ++ [set_titlebar_theme false])%list.
Proof.
  intros Hsaved. unfold mount.
  assert (Hasked : theme (loadSavedTheme (setTheme "light" page)) = "light").
  { unfold loadSavedTheme. cbn [setTheme localStorage].
    now destruct Hsaved as [-> | ->]. }
  rewrite Hasked. cbn [String.eqb Ascii.eqb Bool.eqb].
  unfold applyTheme. cbn [setTheme theme].
  change (validToken "light") with true. cbv iota.
  eexists. split; [reflexivity|].
  cbn [theme localStorage calls].
  split; [reflexivity|]. split; [apply getItem_setItem_same | reflexivity].
Qed.

Lemma mount_defaults_to_light_witness :
  exists w',
    mount None None
      {| theme := "light"; localStorage := [("lang", "en")];
         classList := []; dataColorMode := None; calls := [];
         warnings := [] |} = Some w' /\
    theme w' = "light".
Proof.
  destruct (mount_defaults_to_light None None
              {| theme := "light"; localStorage := [("lang", "en")];
                 classList := []; dataColorMode := None; calls := [];
                 warnings := [] |} (or_introl eq_refl))
    as (w' & Hmount & Htheme & _).
  exists w'. split; [exact Hmount | exact Htheme].
Defined.

End ThemeProviderFacts.

(** ** The Gemini catalog *)

Module GeminiSlashCommandsFacts.
Import GeminiSlashCommands.

(** X26. The names of the Gemini catalog are pairwise distinct, all its
    commands are built in, and the commands it offers without a terminal
    are compact, stats, context, init and version, in that order. *)
Theorem gemini_catalog_names :
  NoDup (map SlashCommand.name GEMINI_BUILT_IN_SLASH_COMMANDS) /\
  Forall (fun c => SlashCommand.source c = "built-in")
         GEMINI_BUILT_IN_SLASH_COMMANDS /\
  map SlashCommand.name getGeminiNonInteractiveCommands =
  ["compact"; "stats"; "context"; "init"; "version"].
Proof.
  split; [|split].
  - cbn. repeat (constructor; [cbn; intuition discriminate|]). constructor.
  - repeat constructor.
  - reflexivity.
Qed.

End GeminiSlashCommandsFacts.
